(** * go-core [servers]: the TCP listener and the framed, tick-buffered connection

    A shallow embedding of [servers.Server] and [servers.TCPConnection].
    The socket ([net.Conn]), the buffered reader ([bufio.Reader]) and the
    logging package are the environment: they are modelled as explicit state
    driven by scripts (what the peer sends, which writes fail), and every
    effect of a method on them is recorded, in order, in a trace. *)

From Stdlib Require Import String.
From Stdlib Require Import ZArith List Lia Bool.
From Stdlib Require Import Init.Byte Strings.Byte.
Import ListNotations.
Local Open Scope Z_scope.

(** ** Bytes and [encoding/binary.LittleEndian] *)

Module Binary.

(** Go's conversion [byte(v)]: the low eight bits. *)
Definition byte_of_Z (z : Z) : byte :=
  match Byte.of_N (Z.to_N (z mod 256)) with
  | Some b => b
  | None => x00
  end.

Definition Z_of_byte (b : byte) : Z := Z.of_N (Byte.to_N b).

(** [copy(dst, src)]: [src] overwrites the front of [dst], the slice keeps
    its length. *)
Definition overwrite (dst src : list byte) : list byte :=
  firstn (List.length dst) src ++ skipn (List.length src) dst.

(** [LittleEndian.PutUint16(b, v)]: b[0] = byte(v); b[1] = byte(v >> 8). *)
Definition PutUint16 (b : list byte) (v : Z) : list byte :=
  overwrite b [byte_of_Z v; byte_of_Z (Z.shiftr v 8)].

(** [LittleEndian.Uint16(b)]: uint16(b[0]) | uint16(b[1])<<8. *)
Definition Uint16 (b : list byte) : Z :=
  Z.lor (Z_of_byte (nth 0 b x00)) (Z.shiftl (Z_of_byte (nth 1 b x00)) 8).

(** [LittleEndian.PutUint32(b, v)]. *)
Definition PutUint32 (b : list byte) (v : Z) : list byte :=
  overwrite b [byte_of_Z v; byte_of_Z (Z.shiftr v 8);
               byte_of_Z (Z.shiftr v 16); byte_of_Z (Z.shiftr v 24)].

(** The little-endian digits of [v] in base 256, least significant first:
    what "the [n] little-endian bytes of [v]" means, independently of the
    shifts above. *)
Fixpoint le_bytes (n : nat) (v : Z) : list byte :=
  match n with
  | O => []
  | S n' => byte_of_Z (v mod 256) :: le_bytes n' (v / 256)
  end.

(** The number a little-endian byte sequence denotes. *)
Fixpoint le_value (bs : list byte) : Z :=
  match bs with
  | [] => 0
  | b :: bs' => Z_of_byte b + 256 * le_value bs'
  end.

End Binary.
Import Binary.

(** ** The environment: errors, log entries, socket, buffered reader *)

(** A Go [error] is represented by its message; [nil] is [None]. *)
Definition error := string.

Definition errClosing : error := "use of closed network connection"%string.
Definition EOF : error := "EOF"%string.

Inductive Level := Debug | Info | Warn | Error.

(** Close hooks are opaque callbacks; a hook is known by a name. *)
Definition hook := nat.

(** What a method does to the outside world, in the order it does it. *)
Inductive event :=
| EvLog (lvl : Level) (msg : string) (err : option error)
| EvHook (f : hook) (closed_seen : bool)
| EvWrite (p : list byte)
| EvRead (n : nat)
| EvRelease.

(** What the peer makes available to one [Read] of the socket: some bytes,
    or a failure. *)
Inductive segment :=
| Seg (bs : list byte)
| Fault (e : error).

(** The accepted socket. [write_faults] scripts the outcome of the coming
    writes on the open socket ([None] is success, an exhausted script is
    success); [incoming] scripts what arrives; a released socket fails every
    read and write. *)
Record NetConn := mkNetConn {
  released : bool;
  write_faults : list (option error);
  release_result : option error;
  incoming : list segment
}.

Definition conn_Write (p : list byte) (s : NetConn) : option error * NetConn :=
  if released s then (Some errClosing, s)
  else match write_faults s with
       | [] => (None, s)
       | r :: rest =>
           (r, mkNetConn (released s) rest (release_result s) (incoming s))
       end.

Definition conn_Close (s : NetConn) : option error * NetConn :=
  if released s then (Some errClosing, s)
  else (release_result s,
        mkNetConn true (write_faults s) (release_result s) (incoming s)).

Definition set_incoming (i : list segment) (s : NetConn) : NetConn :=
  mkNetConn (released s) (write_faults s) (release_result s) i.

(** One [Read] of the socket into a slice of [cap] bytes: at most [cap] bytes
    of the segment at the head; what does not fit stays for the next read.
    When nothing is left the peer has hung up. *)
Definition conn_Read (cap : nat) (s : NetConn)
  : list byte * option error * NetConn :=
  if released s then ([], Some errClosing, s)
  else match incoming s with
       | [] => ([], Some EOF, s)
       | Fault e :: rest => ([], Some e, set_incoming rest s)
       | Seg bs :: rest =>
           match skipn cap bs with
           | [] => (firstn cap bs, None, set_incoming rest s)
           | r => (firstn cap bs, None, set_incoming (Seg r :: rest) s)
           end
       end.

(** [bufio.NewReader] allocates a buffer of [defaultBufSize] bytes. *)
Definition defaultBufSize : nat := 4096.

(** [bufio.Reader.Read(p)] with [len(p) = n], over the bytes [buf] it holds
    and the socket: it takes the bytes from at most one read of the socket,
    so it may deliver fewer than [n]. *)
Definition reader_Read (n : nat) (buf : list byte) (s : NetConn)
  : list byte * option error * list byte * NetConn :=
  match n with
  | O =>
      (* an empty slice: nothing is read and no error is pending *)
      ([], None, buf, s)
  | _ =>
      match buf with
      | [] =>
          if Nat.leb defaultBufSize n then
            (* large read, empty buffer: read directly into p *)
            let '(d, err, s') := conn_Read n s in (d, err, [], s')
          else
            (* one read of the socket into the buffer, then copy *)
            let '(d, err, s') := conn_Read defaultBufSize s in
            match d with
            | [] => ([], err, [], s')
            | _ => (firstn n d, None, skipn n d, s')
            end
      | _ => (firstn n buf, None, skipn n buf, s)
      end
  end.

(** ** [TCPConnection] *)

Record TCPConnection := mkTCPConnection {
  Closed : bool;
  conn : NetConn;
  reader : list byte;
  id : string;
  closeFunctions : list hook;
  updates : list byte;
  trace : list event
}.

Definition emit (e : event) (c : TCPConnection) : TCPConnection :=
  mkTCPConnection (Closed c) (conn c) (reader c) (id c) (closeFunctions c)
                  (updates c) (trace c ++ [e]).

Definition set_Closed (b : bool) (c : TCPConnection) : TCPConnection :=
  mkTCPConnection b (conn c) (reader c) (id c) (closeFunctions c)
                  (updates c) (trace c).

Definition set_conn (s : NetConn) (c : TCPConnection) : TCPConnection :=
  mkTCPConnection (Closed c) s (reader c) (id c) (closeFunctions c)
                  (updates c) (trace c).

Definition set_reader (r : list byte) (c : TCPConnection) : TCPConnection :=
  mkTCPConnection (Closed c) (conn c) r (id c) (closeFunctions c)
                  (updates c) (trace c).

Definition set_closeFunctions (fs : list hook) (c : TCPConnection)
  : TCPConnection :=
  mkTCPConnection (Closed c) (conn c) (reader c) (id c) fs
                  (updates c) (trace c).

Definition set_updates (u : list byte) (c : TCPConnection) : TCPConnection :=
  mkTCPConnection (Closed c) (conn c) (reader c) (id c) (closeFunctions c)
                  u (trace c).

(** [NewTCPConnection(c)]; the fresh uuid is an input. *)
Definition NewTCPConnection (s : NetConn) (uuid : string) : TCPConnection :=
  mkTCPConnection false s [] uuid [] [] [].

Definition ID (c : TCPConnection) : string := id c.

(** Calling a close hook: the hook runs, and sees the connection's flag. *)
Definition call_hook (c : TCPConnection) (f : hook) : TCPConnection :=
  emit (EvHook f (Closed c)) c.

Definition Close (c : TCPConnection) : option error * TCPConnection :=
  if Closed c then (None, c)
  else
    let c1 := emit (EvLog Info "Closing connection"%string None) c in
    let c2 := set_Closed true c1 in
    let c3 := fold_left call_hook (closeFunctions c2) c2 in
    let '(err, s) := conn_Close (conn c3) in
    (err, set_conn s (emit EvRelease c3)).

Definition OnClose (f : hook) (c : TCPConnection) : TCPConnection :=
  set_closeFunctions (closeFunctions c ++ [f]) c.

Definition WriteMessage (p : list byte) (c : TCPConnection)
  : option error * TCPConnection :=
  let '(err, s) := conn_Write p (conn c) in
  (err, set_conn s (emit (EvWrite p) c)).

(** [c.reader.Read(p)] on the connection, with [len(p) = n]. *)
Definition Read (n : nat) (c : TCPConnection)
  : list byte * option error * TCPConnection :=
  let '(d, err, buf, s) := reader_Read n (reader c) (conn c) in
  (d, err, set_conn s (set_reader buf (emit (EvRead n) c))).

Definition ReadMessage (c : TCPConnection)
  : list byte * option error * TCPConnection :=
  let length := repeat x00 2 in
  let '(d, err, c1) := Read 2 c in
  match err with
  | Some e => if Closed c1 then ([], None, c1) else ([], Some e, c1)
  | None =>
      let length := overwrite length d in
      let body := repeat x00 (Z.to_nat (Uint16 length)) in
      let '(d', err', c2) := Read (List.length body) c1 in
      match err' with
      | Some e => ([], Some e, c2)
      | None => (overwrite body d', None, c2)
      end
  end.

Definition BufferUpdate (s : list byte) (c : TCPConnection) : TCPConnection :=
  set_updates (updates c ++ s) c.

Definition Flush (tick : Z) (c : TCPConnection) : TCPConnection :=
  if Nat.eqb (List.length (updates c)) 0 then c
  else
    let b := repeat x00 4 in
    let b := PutUint32 b tick in
    let b := b ++ updates c in
    let b := b ++ [x00] in
    let '(err, c1) := WriteMessage b c in
    match err with
    | Some e =>
        if Closed c1 then c1
        else
          let c2 := emit (EvLog Error "Failed to write updates"%string (Some e)) c1 in
          let '(_, c3) := Close c2 in
          set_updates [] c3
    | None => set_updates [] c1
    end.

(** A driver's calls on one connection, and their effect in sequence. *)
Inductive op :=
| OpClose
| OpOnClose (f : hook)
| OpWriteMessage (p : list byte)
| OpReadMessage
| OpBufferUpdate (s : list byte)
| OpFlush (tick : Z).

Definition step (c : TCPConnection) (o : op) : TCPConnection :=
  match o with
  | OpClose => snd (Close c)
  | OpOnClose f => OnClose f c
  | OpWriteMessage p => snd (WriteMessage p c)
  | OpReadMessage => snd (ReadMessage c)
  | OpBufferUpdate s => BufferUpdate s c
  | OpFlush tick => Flush tick c
  end.

Definition run (ops : list op) (c : TCPConnection) : TCPConnection :=
  fold_left step ops c.

(** The events a method added to the trace. *)
Definition new_events (c c' : TCPConnection) : list event :=
  skipn (List.length (trace c)) (trace c').

(** The byte sequences handed to the socket, in order. *)
Fixpoint writes (t : list event) : list (list byte) :=
  match t with
  | [] => []
  | EvWrite p :: t' => p :: writes t'
  | _ :: t' => writes t'
  end.

(** The wire format of section 6: a 2-byte little-endian length, then the
    body. *)
Definition frame (body : list byte) : list byte :=
  PutUint16 (repeat x00 2) (Z.of_nat (List.length body)) ++ body.

(** The tick-update structure: tick, payload, terminator. *)
Definition tick_update (tick : Z) (payload : list byte) : list byte :=
  le_bytes 4 tick ++ payload ++ [x00].

(** ** [Server] *)

(** What one call of [listener.Accept()] returns: a socket (with the remote
    address and the uuid the new connection will draw) or an error. *)
Inductive accept_result :=
| Accepted (remote : string) (s : NetConn) (uuid : string)
| AcceptFailed (e : error).

(** One iteration's environment: whether [Stop] ran on another goroutine
    while [Accept] was blocked, and what [Accept] then returned. *)
Record accept_event := mkAcceptEvent {
  stop_during : bool;
  result : accept_result
}.

Record Server := mkServer {
  Connections : list TCPConnection;  (* sent on the channel, in order *)
  channel_closed : bool;
  addr : string;
  stopping : bool;
  server_log : list (Level * string);
  closed_sockets : list string       (* remote addresses closed by the loop *)
}.

Inductive outcome :=
| Returned (err : option error)
| Panicked (why : string)
| Blocked.

Definition nil_dereference : string :=
  "invalid memory address or nil pointer dereference"%string.
Definition send_on_closed : string := "send on closed channel"%string.

Definition NewTCPServer (a : string) : Server :=
  mkServer [] false a false [] [].

Definition slog (l : Level) (msg : string) (t : Server) : Server :=
  mkServer (Connections t) (channel_closed t) (addr t) (stopping t)
           (server_log t ++ [(l, msg)]) (closed_sockets t).

Definition Stop (t : Server) : Server :=
  let t := slog Info "Stopping TCP Server"%string t in
  mkServer (Connections t) true (addr t) true (server_log t)
           (closed_sockets t).

(** [strings.Contains(s, substr)]. *)
Definition Contains (s substr : string) : bool :=
  match String.index 0 substr s with
  | Some _ => true
  | None => false
  end.

(** The accept loop of [Start]; it consumes one [accept_event] per
    iteration and blocks in [Accept] when none is left. *)
Fixpoint accept_loop (script : list accept_event) (t : Server)
  : outcome * Server :=
  if stopping t then (Returned None, t)
  else
    match script with
    | [] => (Blocked, t)
    | ev :: rest =>
        let t := if stop_during ev then Stop t else t in
        let '(conn, err) :=
          match result ev with
          | Accepted remote s uuid => (Some (remote, s, uuid), None)
          | AcceptFailed e => (None, Some e)
          end in
        let after_err :=
          match err with
          | Some e =>
              if Contains e "use of closed network connection"
              then None                          (* break *)
              else Some (slog Error e t)         (* falls through *)
          | None => Some t
          end in
        match after_err with
        | None => (Returned None, t)
        | Some t =>
            if stopping t then
              match conn with
              | None => (Panicked nil_dereference, t)   (* conn.Close() *)
              | Some (remote, _, _) =>
                  (Returned None,
                   mkServer (Connections t) (channel_closed t) (addr t)
                            (stopping t) (server_log t)
                            (closed_sockets t ++ [remote]))
              end
            else
              match conn with
              | None => (Panicked nil_dereference, t)   (* conn.RemoteAddr() *)
              | Some (remote, s, uuid) =>
                  let t :=
                    slog Debug ("Client connected: " ++ remote)%string t in
                  if channel_closed t then (Panicked send_on_closed, t)
                  else
                    accept_loop rest
                      (mkServer (Connections t ++ [NewTCPConnection s uuid])
                                (channel_closed t) (addr t) (stopping t)
                                (server_log t) (closed_sockets t))
              end
        end
    end.

(** [Start]; [bind] is what [net.Listen] returned. *)
Definition Start (bind : option error) (script : list accept_event)
  (t : Server) : outcome * Server :=
  match bind with
  | Some e => (Returned (Some e), t)
  | None =>
      let t := slog Info ("TCP Server listening on " ++ addr t)%string t in
      accept_loop script t
  end.

(** ** Observations the properties are stated with *)

Definition closing_events (fs : list hook) : list event :=
  [EvLog Info "Closing connection"%string None]
    ++ map (fun f => EvHook f true) fs ++ [EvRelease].

(** The slice [Flush] hands to [WriteMessage]. *)
Definition flush_bytes (tick : Z) (c : TCPConnection) : list byte :=
  (PutUint32 (repeat x00 4) tick ++ updates c) ++ [x00].

(** The bytes a [Flush] puts on the wire. *)
Definition flush_wire (tick : Z) (c : TCPConnection) : list byte :=
  concat (writes (new_events c (Flush tick c))).

(** C3 as the specification words it: what [Flush] puts on the wire is the
    length-prefixed frame whose body is the tick-update structure. *)
Definition Flush_length_prefixed (tick : Z) (c : TCPConnection) : Prop :=
  flush_wire tick c = frame (tick_update tick (updates c)).

(** C4 as the specification words it: after a [Flush] on a non-empty
    buffer the buffer is empty, whatever the outcome of the write. *)
Definition Flush_resets_buffer (tick : Z) (c : TCPConnection) : Prop :=
  updates c <> [] -> updates (Flush tick c) = [].

(** The hooks a trace shows as invoked, in order, and how often it shows
    the socket released. *)
Fixpoint hooks_run (t : list event) : list hook :=
  match t with
  | [] => []
  | EvHook f _ :: t' => f :: hooks_run t'
  | _ :: t' => hooks_run t'
  end.

Fixpoint releases (t : list event) : nat :=
  match t with
  | [] => O
  | EvRelease :: t' => S (releases t')
  | _ :: t' => releases t'
  end.

(** Reads and writes of the socket, as opposed to log entries, hook calls
    and the release. *)
Definition is_io (e : event) : bool :=
  match e with
  | EvWrite _ | EvRead _ => true
  | _ => false
  end.

(** C8 as the specification words it, for [BufferUpdate]: on a closed
    connection the update buffer is left as it was. *)
Definition BufferUpdate_noop_when_closed (s : list byte) (c : TCPConnection)
  : Prop :=
  Closed c = true -> updates (BufferUpdate s c) = updates c.

(** The body length [ReadMessage] decodes from what the prefix read
    delivered into the two-byte slice. *)
Definition decoded_length (d : list byte) : nat :=
  Z.to_nat (Uint16 (overwrite (repeat x00 2) d)).

(** ** Drivers and scripts used to state properties of whole runs *)

(** An accept that succeeds while nobody calls [Stop]. *)
Definition plain_accept (ev : accept_event) : bool :=
  negb (stop_during ev) &&
  match result ev with
  | Accepted _ _ _ => true
  | AcceptFailed _ => false
  end.

(** The connection built from an accepted socket, and the log line the loop
    writes for it. *)
Definition accepted_conn (ev : accept_event) : list TCPConnection :=
  match result ev with
  | Accepted _ s uuid => [NewTCPConnection s uuid]
  | AcceptFailed _ => []
  end.

Definition accepted_log (ev : accept_event) : list (Level * string) :=
  match result ev with
  | Accepted remote _ _ => [(Debug, ("Client connected: " ++ remote)%string)]
  | AcceptFailed _ => []
  end.


(** The server after the loop handled the plain accepts [oks]. *)
Definition deliver_all (oks : list accept_event) (t : Server) : Server :=
  mkServer (Connections t ++ flat_map accepted_conn oks) (channel_closed t)
           (addr t) (stopping t)
           (server_log t ++ flat_map accepted_log oks) (closed_sockets t).

(** A reader goroutine calling [ReadMessage] [n] times, keeping what each
    call returned. *)
Fixpoint ReadMessages (n : nat) (c : TCPConnection)
  : list (list byte * option error) * TCPConnection :=
  match n with
  | O => ([], c)
  | S n' =>
      let '(r, e, c1) := ReadMessage c in
      let '(rs, c2) := ReadMessages n' c1 in
      ((r, e) :: rs, c2)
  end.

(** One tick of the driver: some [BufferUpdate] calls, then [Flush]. *)
Definition do_round (c : TCPConnection) (r : list (list byte) * Z)
  : TCPConnection :=
  Flush (snd r) (fold_left (fun c s => BufferUpdate s c) (fst r) c).

(** What a tick should put on the wire: nothing when nothing was buffered,
    else the tick-update structure of the bytes buffered in it. *)
Definition round_frame (r : list (list byte) * Z) : list (list byte) :=
  match concat (fst r) with
  | [] => []
  | p => [tick_update (snd r) p]
  end.

(** The state of a connection's life that its trace must agree with: the
    socket was released once if the flag is set and never otherwise; no
    hook ran while the flag is clear; the hooks that ran are the front of
    the registered list. *)
Definition lifecycle (c : TCPConnection) : Prop :=
  releases (trace c) = (if Closed c then 1 else 0)%nat /\
  (Closed c = false -> hooks_run (trace c) = []) /\
  exists later, closeFunctions c = hooks_run (trace c) ++ later.

(** * Properties *)

(** ** Little-endian encoding *)

Lemma Z_of_byte_range (b : byte) : 0 <= Z_of_byte b < 256.
Proof.
  unfold Z_of_byte. pose proof (Byte.to_N_bounded b). lia.
Qed.

Lemma Z_of_byte_of_Z (z : Z) : Z_of_byte (byte_of_Z z) = z mod 256.
Proof.
  unfold Z_of_byte, byte_of_Z.
  assert (Hr : 0 <= z mod 256 < 256) by (apply Z.mod_pos_bound; lia).
  destruct (Byte.of_N (Z.to_N (z mod 256))) as [b|] eqn:E.
  - apply Byte.to_of_N in E. rewrite E. lia.
  - apply Byte.of_N_None_iff in E. lia.
Qed.

Lemma byte_of_Z_of_byte (b : byte) : byte_of_Z (Z_of_byte b) = b.
Proof.
  unfold byte_of_Z. pose proof (Z_of_byte_range b) as Hr.
  rewrite Z.mod_small by exact Hr.
  unfold Z_of_byte. rewrite N2Z.id, Byte.of_to_N. reflexivity.
Qed.

Lemma byte_of_Z_mod (z : Z) : byte_of_Z (z mod 256) = byte_of_Z z.
Proof.
  unfold byte_of_Z. rewrite Z.mod_mod by lia. reflexivity.
Qed.

(** The shifts of [PutUint32] compute the base-256 digits. *)
Lemma PutUint32_le_bytes (v : Z) : PutUint32 (repeat x00 4) v = le_bytes 4 v.
Proof.
  unfold PutUint32, overwrite. cbn [repeat List.length firstn skipn app le_bytes].
  rewrite !byte_of_Z_mod, !Z.div_div by lia.
  rewrite !Z.shiftr_div_pow2 by lia.
  reflexivity.
Qed.

Lemma PutUint16_le_bytes (v : Z) : PutUint16 (repeat x00 2) v = le_bytes 2 v.
Proof.
  unfold PutUint16, overwrite. cbn [repeat List.length firstn skipn app le_bytes].
  rewrite !byte_of_Z_mod, !Z.shiftr_div_pow2 by lia.
  reflexivity.
Qed.

Lemma le_bytes_length (n : nat) (v : Z) : List.length (le_bytes n v) = n.
Proof.
  revert v. induction n as [|n IH]; intros v; cbn; [reflexivity|].
  now rewrite IH.
Qed.

(** Decoding the [n] little-endian bytes of [v] gives [v] back when [v]
    fits. *)
Lemma le_value_le_bytes (n : nat) (v : Z) :
  0 <= v < 256 ^ Z.of_nat n -> le_value (le_bytes n v) = v.
Proof.
  revert v. induction n as [|n IH]; intros v Hv.
  - cbn in *. lia.
  - cbn [le_bytes le_value]. rewrite byte_of_Z_mod, Z_of_byte_of_Z.
    rewrite IH.
    + pose proof (Z.div_mod v 256). lia.
    + rewrite Nat2Z.inj_succ, Z.pow_succ_r in Hv by lia.
      split; [apply Z.div_pos; lia|].
      apply Z.div_lt_upper_bound; lia.
Qed.

Lemma Uint16_le_value (b0 b1 : byte) : Uint16 [b0; b1] = le_value [b0; b1].
Proof.
  unfold Uint16. cbn [nth le_value].
  pose proof (Z_of_byte_range b0) as H0.
  pose proof (Z_of_byte_range b1) as H1.
  rewrite Z.shiftl_mul_pow2 by lia.
  assert (Hl : Z.land (Z_of_byte b0) (Z_of_byte b1 * 2 ^ 8) = 0).
  { apply Z.bits_inj'. intros k Hk. rewrite Z.land_spec, Z.bits_0.
    destruct (Z.ltb_spec k 8).
    - rewrite Z.mul_pow2_bits_low by lia. apply andb_false_r.
    - rewrite (Z.bits_above_log2 (Z_of_byte b0)); [reflexivity|lia|].
      destruct (Z.eq_dec (Z_of_byte b0) 0) as [->|Hne]; [cbn; lia|].
      apply Z.lt_le_trans with 8; [|lia].
      apply Z.log2_lt_pow2; lia. }
  pose proof (Z.add_lor_land (Z_of_byte b0) (Z_of_byte b1 * 2 ^ 8)) as Ha.
  change (2 ^ 8) with 256 in *. lia.
Qed.

(** What [ReadMessage] decodes from a prefix written by [PutUint16]. *)
Lemma Uint16_PutUint16 (n : Z) :
  0 <= n < 65536 -> Uint16 (PutUint16 (repeat x00 2) n) = n.
Proof.
  intros Hn. rewrite PutUint16_le_bytes. cbn [le_bytes].
  rewrite Uint16_le_value.
  apply (le_value_le_bytes 2 n). cbn. lia.
Qed.

(** ** Traces *)

Lemma new_events_app (c c' : TCPConnection) (l : list event) :
  trace c' = trace c ++ l -> new_events c c' = l.
Proof.
  intros H. unfold new_events. rewrite H.
  rewrite skipn_app, skipn_all, Nat.sub_diag. reflexivity.
Qed.

Lemma writes_app (a b : list event) : writes (a ++ b) = writes a ++ writes b.
Proof.
  induction a as [|e a IH]; [reflexivity|].
  destruct e; cbn; rewrite IH; reflexivity.
Qed.

Lemma writes_hooks (fs : list hook) (b : bool) :
  writes (map (fun f => EvHook f b) fs) = [].
Proof.
  induction fs as [|f fs IH]; [reflexivity|exact IH].
Qed.

(** ** What each method does to the connection record *)

Lemma WriteMessage_eq (p : list byte) (c : TCPConnection) :
  WriteMessage p c =
  (fst (conn_Write p (conn c)),
   mkTCPConnection (Closed c) (snd (conn_Write p (conn c))) (reader c) (id c)
                   (closeFunctions c) (updates c) (trace c ++ [EvWrite p])).
Proof.
  unfold WriteMessage. destruct (conn_Write p (conn c)); reflexivity.
Qed.

Lemma fold_call_hook (fs : list hook) (c : TCPConnection) :
  fold_left call_hook fs c =
  mkTCPConnection (Closed c) (conn c) (reader c) (id c) (closeFunctions c)
                  (updates c)
                  (trace c ++ map (fun f => EvHook f (Closed c)) fs).
Proof.
  revert c. induction fs as [|f fs IH]; intros c.
  - cbn. rewrite app_nil_r. destruct c; reflexivity.
  - cbn [fold_left map]. rewrite IH. unfold call_hook, emit. cbn.
    rewrite <- app_assoc. reflexivity.
Qed.

Lemma Close_open (c : TCPConnection) :
  Closed c = false ->
  Close c =
  (fst (conn_Close (conn c)),
   mkTCPConnection true (snd (conn_Close (conn c))) (reader c) (id c)
                   (closeFunctions c) (updates c)
                   (trace c ++ closing_events (closeFunctions c))).
Proof.
  intros Hc. unfold Close. rewrite Hc.
  rewrite fold_call_hook. unfold set_Closed, emit, set_conn, closing_events.
  cbn [conn Closed reader id closeFunctions updates trace].
  destruct (conn_Close (conn c)) as [err s].
  cbn. rewrite <- !app_assoc. reflexivity.
Qed.

Lemma Close_closed (c : TCPConnection) :
  Closed c = true -> Close c = (None, c).
Proof.
  intros Hc. unfold Close. rewrite Hc. reflexivity.
Qed.

Lemma conn_Close_released (s : NetConn) : released (snd (conn_Close s)) = true.
Proof.
  unfold conn_Close. destruct (released s) eqn:E; [exact E|reflexivity].
Qed.

Lemma writes_closing_events (fs : list hook) : writes (closing_events fs) = [].
Proof.
  unfold closing_events. cbn. rewrite writes_app, writes_hooks. reflexivity.
Qed.

Lemma flush_bytes_tick_update (tick : Z) (c : TCPConnection) :
  flush_bytes tick c = tick_update tick (updates c).
Proof.
  unfold flush_bytes, tick_update. rewrite PutUint32_le_bytes, <- app_assoc.
  reflexivity.
Qed.

Lemma length_eqb_nonempty (u : list byte) :
  u <> [] -> Nat.eqb (List.length u) 0 = false.
Proof.
  destruct u; [congruence|reflexivity].
Qed.

Lemma Flush_empty (tick : Z) (c : TCPConnection) :
  updates c = [] -> Flush tick c = c.
Proof.
  intros Hu. unfold Flush. rewrite Hu. reflexivity.
Qed.

(** [Flush] on a buffer that holds something, by the outcome of the write
    and the flag. *)
Lemma Flush_write_ok (tick : Z) (c : TCPConnection) :
  updates c <> [] ->
  fst (WriteMessage (flush_bytes tick c) c) = None ->
  Flush tick c = set_updates [] (snd (WriteMessage (flush_bytes tick c) c)).
Proof.
  intros Hu Hw. unfold Flush. rewrite (length_eqb_nonempty _ Hu).
  fold (flush_bytes tick c).
  destruct (WriteMessage (flush_bytes tick c) c) as [err c1].
  cbn [fst] in Hw. subst err. reflexivity.
Qed.

Lemma Flush_write_failed_closed (tick : Z) (c : TCPConnection) (e : error) :
  updates c <> [] ->
  fst (WriteMessage (flush_bytes tick c) c) = Some e ->
  Closed c = true ->
  Flush tick c = snd (WriteMessage (flush_bytes tick c) c).
Proof.
  intros Hu Hw Hc. unfold Flush. rewrite (length_eqb_nonempty _ Hu).
  fold (flush_bytes tick c). rewrite WriteMessage_eq in *.
  cbn [fst] in Hw. rewrite Hw. cbn [snd Closed]. rewrite Hc. reflexivity.
Qed.

Lemma Flush_write_failed_open (tick : Z) (c : TCPConnection) (e : error) :
  updates c <> [] ->
  fst (WriteMessage (flush_bytes tick c) c) = Some e ->
  Closed c = false ->
  Flush tick c =
  set_updates []
    (snd (Close (emit (EvLog Error "Failed to write updates"%string (Some e))
                      (snd (WriteMessage (flush_bytes tick c) c))))).
Proof.
  intros Hu Hw Hc. unfold Flush. rewrite (length_eqb_nonempty _ Hu).
  fold (flush_bytes tick c). rewrite WriteMessage_eq in *.
  cbn [fst] in Hw. rewrite Hw. cbn [snd Closed]. rewrite Hc.
  match goal with |- (let '(_, c3) := ?X in _) = _ => destruct X end.
  reflexivity.
Qed.

(** Whatever happens, a [Flush] on a buffer that holds something hands the
    socket one slice. *)
Lemma Flush_writes_once (tick : Z) (c : TCPConnection) :
  updates c <> [] ->
  writes (new_events c (Flush tick c)) = [flush_bytes tick c].
Proof.
  intros Hu.
  destruct (fst (WriteMessage (flush_bytes tick c) c)) as [e|] eqn:Hw.
  - destruct (Closed c) eqn:Hc.
    + rewrite (Flush_write_failed_closed tick c e Hu Hw Hc).
      rewrite WriteMessage_eq. cbn [snd].
      erewrite new_events_app by reflexivity. reflexivity.
    + rewrite (Flush_write_failed_open tick c e Hu Hw Hc).
      rewrite WriteMessage_eq. cbn [snd]. rewrite Close_open by exact Hc.
      cbn [snd set_updates emit Closed conn reader id closeFunctions updates trace].
      erewrite new_events_app.
      2:{ cbn [trace]. rewrite <- !app_assoc. reflexivity. }
      rewrite !writes_app, writes_closing_events. reflexivity.
  - rewrite (Flush_write_ok tick c Hu Hw). rewrite WriteMessage_eq.
    cbn [snd set_updates trace].
    erewrite new_events_app by reflexivity. reflexivity.
Qed.

(** ** The update buffer and [Flush] *)

Lemma BufferUpdate_all (ss : list (list byte)) (c : TCPConnection) :
  fold_left (fun c s => BufferUpdate s c) ss c =
  set_updates (updates c ++ concat ss) c.
Proof.
  revert c. induction ss as [|s ss IH]; intros c.
  - cbn. rewrite app_nil_r. destruct c; reflexivity.
  - cbn [fold_left concat]. rewrite IH. unfold BufferUpdate, set_updates. cbn.
    rewrite <- app_assoc. reflexivity.
Qed.

(** C9. When the update buffer is empty, [Flush(tick)] is the identity on
    the connection: the buffer, the closed flag, the socket, the reader and
    the hook list are what they were, and nothing is added to the trace, so
    no write reached the socket. *)
Theorem Flush_empty_buffer_noop (tick : Z) (c : TCPConnection) :
  updates c = [] ->
  Flush tick c = c /\ new_events c (Flush tick c) = [].
Proof.
  intros Hu. pose proof (Flush_empty tick c Hu) as E.
  split; [exact E|]. rewrite E. apply new_events_app.
  symmetry. apply app_nil_r.
Qed.

Lemma Flush_empty_buffer_noop_witness :
  let c := NewTCPConnection (mkNetConn false [] None []) "c1"%string in
  updates c = [] /\ Flush 7 c = c /\ new_events c (Flush 7 c) = [].
Proof.
  split; [reflexivity|].
  apply (Flush_empty_buffer_noop 7
           (NewTCPConnection (mkNetConn false [] None []) "c1"%string)).
  reflexivity.
Defined.

(** C1. Starting from an empty buffer, after any sequence of [BufferUpdate]
    calls that leaves it non-empty, the buffer holds the concatenation of
    the arguments in call order, and [Flush(tick)] hands the socket exactly
    one slice: the 4 little-endian bytes of [tick] (they decode to [tick]),
    then the buffer contents, then one 0x00 byte. When that write succeeds
    the buffer is empty afterwards. *)
Theorem Flush_frames_buffered_updates
  (c : TCPConnection) (ss : list (list byte)) (tick : Z) :
  0 <= tick < 2 ^ 32 ->
  updates c = [] ->
  concat ss <> [] ->
  let c1 := fold_left (fun c s => BufferUpdate s c) ss c in
  let sent := le_bytes 4 tick ++ concat ss ++ [x00] in
  updates c1 = concat ss /\
  writes (new_events c1 (Flush tick c1)) = [sent] /\
  le_value (firstn 4 sent) = tick /\
  (fst (WriteMessage sent c1) = None -> updates (Flush tick c1) = []).
Proof.
  intros Ht Hu Hne c1 sent.
  assert (Hu1 : updates c1 = concat ss).
  { unfold c1. rewrite BufferUpdate_all. cbn. rewrite Hu. reflexivity. }
  assert (Hne1 : updates c1 <> []) by (rewrite Hu1; exact Hne).
  assert (Hs : flush_bytes tick c1 = sent).
  { rewrite flush_bytes_tick_update, Hu1. reflexivity. }
  repeat split.
  - exact Hu1.
  - rewrite Flush_writes_once by exact Hne1. rewrite Hs. reflexivity.
  - unfold sent. rewrite firstn_app, le_bytes_length, Nat.sub_diag.
    rewrite firstn_O, app_nil_r, firstn_all2
      by (rewrite le_bytes_length; apply Nat.le_refl).
    apply (le_value_le_bytes 4). exact Ht.
  - intros Hw. rewrite <- Hs in Hw.
    rewrite (Flush_write_ok tick c1 Hne1 Hw). reflexivity.
Qed.

Lemma Flush_frames_buffered_updates_witness :
  let c := NewTCPConnection (mkNetConn false [] None []) "c1"%string in
  let c1 := BufferUpdate [x02] (BufferUpdate [x01] c) in
  writes (new_events c1 (Flush 7 c1)) = [[x07; x00; x00; x00; x01; x02; x00]]
  /\ updates (Flush 7 c1) = [].
Proof.
  pose proof (Flush_frames_buffered_updates
                (NewTCPConnection (mkNetConn false [] None []) "c1"%string)
                [[x01]; [x02]] 7) as H.
  destruct H as (_ & Hw & _ & He).
  - lia.
  - reflexivity.
  - discriminate.
  - split; [exact Hw|]. apply He. reflexivity.
Defined.

(** C3, counterexample. With [0x01,0x02] buffered and tick 1 the wire
    carries the 7 bytes 01 00 00 00 01 02 00; a frame would start with the
    length prefix 07 00. *)
Lemma Flush_length_prefixed_fails :
  let c := BufferUpdate [x01; x02]
             (NewTCPConnection (mkNetConn false [] None []) "c1"%string) in
  flush_wire 1 c = [x01; x00; x00; x00; x01; x02; x00] /\
  frame (tick_update 1 (updates c)) =
    [x07; x00; x01; x00; x00; x00; x01; x02; x00] /\
  ~ Flush_length_prefixed 1 c.
Proof.
  cbv zeta. split; [reflexivity|]. split; [reflexivity|].
  unfold Flush_length_prefixed. vm_compute. discriminate.
Qed.

Lemma frame_length (body : list byte) :
  List.length (frame body) = (2 + List.length body)%nat.
Proof.
  unfold frame. rewrite length_app, PutUint16_le_bytes, le_bytes_length.
  reflexivity.
Qed.

(** C3, amended. [WriteMessage] hands its argument to the socket as it is,
    and [Flush] on a non-empty buffer puts on the wire the tick-update
    structure itself: the 4 tick bytes, the payload, the terminator, with
    no length prefix in front, so never the length-prefixed frame of that
    structure. *)
Theorem Flush_writes_tick_update_unframed (tick : Z) (c : TCPConnection) :
  updates c <> [] ->
  (forall p, new_events c (snd (WriteMessage p c)) = [EvWrite p]) /\
  flush_wire tick c = tick_update tick (updates c) /\
  ~ Flush_length_prefixed tick c.
Proof.
  intros Hu.
  assert (Hw : flush_wire tick c = tick_update tick (updates c)).
  { unfold flush_wire. rewrite Flush_writes_once by exact Hu.
    cbn [concat]. rewrite app_nil_r. apply flush_bytes_tick_update. }
  split; [|split].
  - intros p. rewrite WriteMessage_eq. apply new_events_app. reflexivity.
  - exact Hw.
  - unfold Flush_length_prefixed. rewrite Hw. intros E.
    apply (f_equal (@List.length byte)) in E. rewrite frame_length in E. lia.
Qed.

Lemma Flush_writes_tick_update_unframed_witness :
  let c := BufferUpdate [x01; x02]
             (NewTCPConnection (mkNetConn false [] None []) "c1"%string) in
  flush_wire 7 c = tick_update 7 [x01; x02].
Proof.
  refine (proj1 (proj2 (Flush_writes_tick_update_unframed 7
    (BufferUpdate [x01; x02]
       (NewTCPConnection (mkNetConn false [] None []) "c1"%string)) _))).
  discriminate.
Defined.

(** C4, counterexample. A connection that was closed and then given one
    more byte: the write fails on the released socket, [Flush] returns at
    once, and the byte is still buffered. *)
Lemma Flush_resets_buffer_fails :
  let c := BufferUpdate [x01]
             (snd (Close (NewTCPConnection (mkNetConn false [] None [])
                                           "c1"%string))) in
  Closed c = true /\
  fst (WriteMessage (flush_bytes 7 c) c) = Some errClosing /\
  updates (Flush 7 c) = [x01] /\
  ~ Flush_resets_buffer 7 c.
Proof.
  cbv zeta. repeat split; try reflexivity.
  unfold Flush_resets_buffer. intros H.
  assert (E : [x01] = @nil byte) by (apply H; discriminate).
  discriminate E.
Qed.

(** C4, amended. After a [Flush] on a non-empty buffer: when the write
    succeeds the buffer is empty; when the write fails on a connection not
    yet closed, the failure is logged, the connection goes through [Close]
    and the buffer is empty; when the write fails on a connection already
    closed, [Flush] returns at once, nothing is logged and the buffer keeps
    its contents. *)
Theorem Flush_buffer_by_outcome (tick : Z) (c : TCPConnection) :
  updates c <> [] ->
  let b := flush_bytes tick c in
  (fst (WriteMessage b c) = None -> updates (Flush tick c) = []) /\
  (forall e, fst (WriteMessage b c) = Some e -> Closed c = false ->
     updates (Flush tick c) = [] /\
     Closed (Flush tick c) = true /\
     new_events c (Flush tick c) =
       [EvWrite b; EvLog Error "Failed to write updates"%string (Some e)]
         ++ closing_events (closeFunctions c)) /\
  (forall e, fst (WriteMessage b c) = Some e -> Closed c = true ->
     updates (Flush tick c) = updates c /\
     new_events c (Flush tick c) = [EvWrite b]).
Proof.
  intros Hu b. split; [|split].
  - intros Hw. rewrite (Flush_write_ok tick c Hu Hw). reflexivity.
  - intros e Hw Hc. rewrite (Flush_write_failed_open tick c e Hu Hw Hc).
    fold b. rewrite WriteMessage_eq. cbn [snd]. rewrite Close_open by exact Hc.
    cbn [snd set_updates emit Closed conn reader id closeFunctions updates
         trace].
    repeat split. apply new_events_app. cbn [trace].
    rewrite <- !app_assoc. reflexivity.
  - intros e Hw Hc. rewrite (Flush_write_failed_closed tick c e Hu Hw Hc).
    fold b. rewrite WriteMessage_eq. cbn [snd updates]. split; [reflexivity|].
    apply new_events_app. reflexivity.
Qed.

Lemma Flush_buffer_by_outcome_witness :
  let ok := BufferUpdate [x01]
              (NewTCPConnection (mkNetConn false [] None []) "c1"%string) in
  let failing := BufferUpdate [x01]
              (NewTCPConnection (mkNetConn false [Some EOF] None [])
                                "c2"%string) in
  let closed := BufferUpdate [x01]
              (snd (Close (NewTCPConnection (mkNetConn false [] None [])
                                            "c3"%string))) in
  updates (Flush 7 ok) = [] /\
  (updates (Flush 7 failing) = [] /\ Closed (Flush 7 failing) = true) /\
  updates (Flush 7 closed) = [x01].
Proof.
  cbv zeta. split; [|split].
  - refine (proj1 (Flush_buffer_by_outcome 7
      (BufferUpdate [x01]
         (NewTCPConnection (mkNetConn false [] None []) "c1"%string)) _) _);
      [discriminate|reflexivity].
  - destruct (proj1 (proj2 (Flush_buffer_by_outcome 7
      (BufferUpdate [x01]
         (NewTCPConnection (mkNetConn false [Some EOF] None []) "c2"%string))
      ltac:(discriminate))) EOF eq_refl eq_refl) as (H1 & H2 & _).
    split; assumption.
  - exact (proj1 (proj2 (proj2 (Flush_buffer_by_outcome 7
      (BufferUpdate [x01]
         (snd (Close (NewTCPConnection (mkNetConn false [] None [])
                                       "c3"%string))))
      ltac:(discriminate))) errClosing eq_refl eq_refl)).
Defined.

(** ** The closed state *)

Lemma hooks_run_io (t l : list event) :
  forallb is_io l = true -> hooks_run (t ++ l) = hooks_run t.
Proof.
  intros Hl. induction t as [|e t IH].
  - cbn. induction l as [|e l IHl]; [reflexivity|].
    cbn in Hl. apply andb_prop in Hl. destruct Hl as [He Hl].
    destruct e; try discriminate He; cbn; auto.
  - destruct e; cbn; rewrite IH; reflexivity.
Qed.

Lemma releases_io (t l : list event) :
  forallb is_io l = true -> releases (t ++ l) = releases t.
Proof.
  intros Hl. induction t as [|e t IH].
  - cbn. induction l as [|e l IHl]; [reflexivity|].
    cbn in Hl. apply andb_prop in Hl. destruct Hl as [He Hl].
    destruct e; try discriminate He; cbn; auto.
  - destruct e; cbn; rewrite IH; reflexivity.
Qed.

Lemma conn_Write_released (p : list byte) (s : NetConn) :
  released (snd (conn_Write p s)) = released s.
Proof.
  unfold conn_Write. destruct (released s) eqn:E; [exact E|].
  destruct (write_faults s); cbn; first [exact E|reflexivity].
Qed.

Lemma conn_Write_on_released (p : list byte) (s : NetConn) :
  released s = true -> conn_Write p s = (Some errClosing, s).
Proof.
  intros E. unfold conn_Write. rewrite E. reflexivity.
Qed.

Lemma conn_Read_released (cap : nat) (s : NetConn) :
  released (snd (conn_Read cap s)) = released s.
Proof.
  unfold conn_Read. destruct (released s) eqn:E; [exact E|].
  destruct (incoming s) as [|[bs|e] rest];
    [exact E| |cbn; first [exact E|reflexivity]].
  destruct (skipn cap bs); cbn; first [exact E|reflexivity].
Qed.

Lemma conn_Read_length (cap : nat) (s : NetConn) :
  (List.length (fst (fst (conn_Read cap s))) <= cap)%nat.
Proof.
  unfold conn_Read. destruct (released s); [apply Nat.le_0_l|].
  destruct (incoming s) as [|[bs|e] rest]; try apply Nat.le_0_l.
  destruct (skipn cap bs); cbn [fst]; apply firstn_le_length.
Qed.

(** A [Read] of the buffered reader delivers at most what was asked for and
    leaves the socket open or released as it was. *)
Lemma reader_Read_spec (n : nat) (buf : list byte) (s : NetConn) :
  forall d err buf' s',
    reader_Read n buf s = (d, err, buf', s') ->
    (List.length d <= n)%nat /\ released s' = released s.
Proof.
  intros d err buf' s' H. unfold reader_Read in H.
  destruct n as [|n].
  { inversion H; subst. split; [apply Nat.le_0_l|reflexivity]. }
  destruct buf as [|x buf].
  - destruct (Nat.leb defaultBufSize (S n)).
    + pose proof (conn_Read_length (S n) s) as Hl.
      pose proof (conn_Read_released (S n) s) as Hr.
      destruct (conn_Read (S n) s) as [[d0 e0] s0].
      inversion H; subst. split; assumption.
    + pose proof (conn_Read_released defaultBufSize s) as Hr.
      destruct (conn_Read defaultBufSize s) as [[d0 e0] s0].
      destruct d0 as [|y d0]; inversion H; subst;
        (split; [|exact Hr]);
        [apply Nat.le_0_l|apply (firstn_le_length (S n) (y :: d0))].
  - inversion H; subst.
    split; [apply (firstn_le_length (S n) (x :: buf))|reflexivity].
Qed.

Lemma Read_spec (n : nat) (c : TCPConnection) :
  forall d err c',
    Read n c = (d, err, c') ->
    (List.length d <= n)%nat /\
    Closed c' = Closed c /\
    closeFunctions c' = closeFunctions c /\
    updates c' = updates c /\
    id c' = id c /\
    released (conn c') = released (conn c) /\
    trace c' = trace c ++ [EvRead n].
Proof.
  intros d err c' H. unfold Read in H.
  destruct (reader_Read n (reader c) (conn c)) as [[[d0 e0] buf0] s0] eqn:E.
  apply reader_Read_spec in E. destruct E as [Hl Hr].
  inversion H; subst. cbn. repeat split; assumption.
Qed.

(** [ReadMessage] touches nothing but the reader and the socket's input,
    and adds one or two reads to the trace. *)
Lemma ReadMessage_spec (c : TCPConnection) :
  forall r err c',
    ReadMessage c = (r, err, c') ->
    Closed c' = Closed c /\
    closeFunctions c' = closeFunctions c /\
    updates c' = updates c /\
    released (conn c') = released (conn c) /\
    exists l, forallb is_io l = true /\ trace c' = trace c ++ l.
Proof.
  intros r err c' H. unfold ReadMessage in H.
  destruct (Read 2 c) as [[d e] c1] eqn:E1.
  apply Read_spec in E1. destruct E1 as (_ & Hc & Hf & Hu & _ & Hr & Ht).
  destruct e as [e|].
  - assert (c' = c1) by (destruct (Closed c1); inversion H; reflexivity).
    subst c'. repeat split; try assumption.
    exists [EvRead 2]. split; [reflexivity|exact Ht].
  - match type of H with
    | context [Read ?n c1] => destruct (Read n c1) as [[d' e'] c2] eqn:E2
    end.
    apply Read_spec in E2.
    destruct E2 as (_ & Hc2 & Hf2 & Hu2 & _ & Hr2 & Ht2).
    assert (c' = c2) by (destruct e'; inversion H; reflexivity).
    subst c'. repeat split; try congruence.
    eexists [EvRead 2; EvRead _]. split; [reflexivity|].
    rewrite Ht2, Ht, <- app_assoc. reflexivity.
Qed.

(** Once the flag is set, no call of the driver runs a hook, releases the
    socket or clears the flag. *)
Lemma step_closed (c : TCPConnection) (o : op) :
  Closed c = true ->
  Closed (step c o) = true /\
  exists l, forallb is_io l = true /\ trace (step c o) = trace c ++ l.
Proof.
  intros Hc. destruct o as [|f|p| |s|tick]; cbn [step].
  - rewrite Close_closed by exact Hc. split; [exact Hc|].
    exists []. split; [reflexivity|symmetry; apply app_nil_r].
  - split; [exact Hc|]. exists []. split; [reflexivity|].
    symmetry; apply app_nil_r.
  - rewrite WriteMessage_eq. split; [exact Hc|].
    exists [EvWrite p]. split; reflexivity.
  - destruct (ReadMessage c) as [[r e] c'] eqn:E.
    apply ReadMessage_spec in E. destruct E as (H1 & _ & _ & _ & l & Hl & Ht).
    cbn [snd]. split; [congruence|]. exists l. split; assumption.
  - split; [exact Hc|]. exists []. split; [reflexivity|].
    symmetry; apply app_nil_r.
  - destruct (updates c) as [|x u] eqn:Hu.
    + rewrite (Flush_empty tick c Hu).
      split; [exact Hc|]. exists []. split; [reflexivity|].
      symmetry; apply app_nil_r.
    + assert (Hne : updates c <> []) by (rewrite Hu; discriminate).
      destruct (fst (WriteMessage (flush_bytes tick c) c)) as [e|] eqn:Hw.
      * rewrite (Flush_write_failed_closed tick c e Hne Hw Hc).
        rewrite WriteMessage_eq. split; [exact Hc|].
        eexists [EvWrite _]. split; reflexivity.
      * rewrite (Flush_write_ok tick c Hne Hw), WriteMessage_eq.
        split; [exact Hc|]. eexists [EvWrite _]. split; reflexivity.
Qed.

Lemma run_closed (ops : list op) (c : TCPConnection) :
  Closed c = true ->
  Closed (run ops c) = true /\
  hooks_run (trace (run ops c)) = hooks_run (trace c) /\
  releases (trace (run ops c)) = releases (trace c).
Proof.
  revert c. induction ops as [|o ops IH]; intros c Hc.
  - repeat split; assumption.
  - destruct (step_closed c o Hc) as (Hc' & l & Hl & Ht).
    destruct (IH (step c o) Hc') as (H1 & H2 & H3).
    unfold run in *. cbn [fold_left].
    rewrite H2, H3, Ht, hooks_run_io, releases_io by exact Hl.
    repeat split. exact H1.
Qed.

Lemma OnClose_all (fs : list hook) (c : TCPConnection) :
  fold_left (fun c f => OnClose f c) fs c =
  set_closeFunctions (closeFunctions c ++ fs) c.
Proof.
  revert c. induction fs as [|f fs IH]; intros c.
  - cbn. rewrite app_nil_r. destruct c; reflexivity.
  - cbn [fold_left]. rewrite IH. unfold OnClose, set_closeFunctions. cbn.
    rewrite <- app_assoc. reflexivity.
Qed.

(** C6. On a connection not yet closed, with hooks [fs] registered through
    [OnClose] (after those it already had), the first [Close] sets the flag,
    then invokes every registered hook once, in registration order, each
    seeing the flag set, then releases the socket, and returns what the
    release returned. Every later [Close], whatever other calls come in
    between, returns no error and changes nothing: no hook runs again and
    the socket is not released again. *)
Theorem Close_idempotent (c : TCPConnection) (fs : list hook) :
  Closed c = false ->
  let c0 := fold_left (fun c f => OnClose f c) fs c in
  let c1 := snd (Close c0) in
  Closed c1 = true /\
  new_events c0 c1 =
    [EvLog Info "Closing connection"%string None]
      ++ map (fun f => EvHook f true) (closeFunctions c ++ fs)
      ++ [EvRelease] /\
  fst (Close c0) = fst (conn_Close (conn c)) /\
  released (conn c1) = true /\
  Close c1 = (None, c1) /\
  (forall ops, let c2 := run ops c1 in
     Close c2 = (None, c2) /\
     hooks_run (trace c2) = hooks_run (trace c1) /\
     releases (trace c2) = releases (trace c1)).
Proof.
  intros Hc c0 c1.
  assert (E0 : c0 = set_closeFunctions (closeFunctions c ++ fs) c)
    by apply OnClose_all.
  assert (Hc0 : Closed c0 = false) by (rewrite E0; exact Hc).
  assert (E1 : Close c0 =
    (fst (conn_Close (conn c)),
     mkTCPConnection true (snd (conn_Close (conn c))) (reader c) (id c)
       (closeFunctions c ++ fs) (updates c)
       (trace c0 ++ closing_events (closeFunctions c ++ fs)))).
  { rewrite (Close_open c0 Hc0), E0. reflexivity. }
  assert (Hc1 : Closed c1 = true) by (unfold c1; rewrite E1; reflexivity).
  repeat split.
  - exact Hc1.
  - apply new_events_app. unfold c1. rewrite E1. reflexivity.
  - rewrite E1. reflexivity.
  - unfold c1. rewrite E1. apply conn_Close_released.
  - apply Close_closed, Hc1.
  - apply Close_closed. apply (run_closed ops c1 Hc1).
  - apply (run_closed ops c1 Hc1).
  - apply (run_closed ops c1 Hc1).
Qed.

Lemma Close_idempotent_witness :
  let c := NewTCPConnection (mkNetConn false [] (Some EOF) []) "c1"%string in
  let c0 := OnClose 5%nat (OnClose 3%nat c) in
  let c1 := snd (Close c0) in
  new_events c0 c1 =
    [EvLog Info "Closing connection"%string None;
     EvHook 3%nat true; EvHook 5%nat true; EvRelease] /\
  fst (Close c0) = Some EOF /\
  Close c1 = (None, c1).
Proof.
  destruct (Close_idempotent
              (NewTCPConnection (mkNetConn false [] (Some EOF) []) "c1"%string)
              [3%nat; 5%nat] eq_refl) as (_ & H1 & H2 & _ & H3 & _).
  repeat split; assumption.
Defined.

(** On every connection a driver can reach, a set flag means the socket
    was released: only [Close] sets the flag, and it releases the socket. *)
Lemma step_closed_released (c : TCPConnection) (o : op) :
  (Closed c = true -> released (conn c) = true) ->
  Closed (step c o) = true -> released (conn (step c o)) = true.
Proof.
  intros Inv. destruct o as [|f|p| |s|tick]; cbn [step].
  - destruct (Closed c) eqn:Hc.
    + rewrite Close_closed by exact Hc. cbn [snd]. intros _. auto.
    + rewrite Close_open by exact Hc. cbn [snd conn]. intros _.
      apply conn_Close_released.
  - exact Inv.
  - rewrite WriteMessage_eq. cbn [snd Closed conn]. intros Hc.
    rewrite conn_Write_released. auto.
  - destruct (ReadMessage c) as [[r e] c'] eqn:E.
    apply ReadMessage_spec in E. destruct E as (H1 & _ & _ & H2 & _).
    cbn [snd]. rewrite H1, H2. exact Inv.
  - exact Inv.
  - destruct (updates c) as [|x u] eqn:Hu.
    + rewrite (Flush_empty tick c Hu).
      exact Inv.
    + assert (Hne : updates c <> []) by (rewrite Hu; discriminate).
      destruct (fst (WriteMessage (flush_bytes tick c) c)) as [e|] eqn:Hw.
      * destruct (Closed c) eqn:Hc.
        -- rewrite (Flush_write_failed_closed tick c e Hne Hw Hc).
           rewrite WriteMessage_eq. cbn [snd Closed conn]. intros _.
           rewrite conn_Write_released. auto.
        -- rewrite (Flush_write_failed_open tick c e Hne Hw Hc).
           rewrite WriteMessage_eq. cbn [snd]. rewrite Close_open by exact Hc.
           cbn [snd set_updates conn emit]. intros _.
           apply conn_Close_released.
      * rewrite (Flush_write_ok tick c Hne Hw), WriteMessage_eq.
        cbn [snd set_updates Closed conn]. intros Hc.
        rewrite conn_Write_released. auto.
Qed.

Lemma run_closed_released (ops : list op) (c : TCPConnection) :
  (Closed c = true -> released (conn c) = true) ->
  Closed (run ops c) = true -> released (conn (run ops c)) = true.
Proof.
  revert c. induction ops as [|o ops IH]; intros c Inv; [exact Inv|].
  unfold run in *. cbn [fold_left]. apply IH.
  apply step_closed_released, Inv.
Qed.

(** C8, counterexample. A fresh connection is closed, then given one byte:
    the byte is in the buffer. *)
Lemma BufferUpdate_noop_when_closed_fails :
  let c := snd (Close (NewTCPConnection (mkNetConn false [] None [])
                                        "c1"%string)) in
  Closed c = true /\
  updates c = [] /\
  updates (BufferUpdate [x01] c) = [x01] /\
  ~ BufferUpdate_noop_when_closed [x01] c.
Proof.
  cbv zeta. repeat split.
  unfold BufferUpdate_noop_when_closed. intros H.
  assert (E : [x01] = @nil byte) by (apply H; reflexivity).
  discriminate E.
Qed.

(** C8, amended. On every closed connection a driver can reach:
    [WriteMessage] still calls the socket and returns its closed-socket
    error, changing nothing else; [Flush] changes no field of the
    connection (it does nothing on an empty buffer, and otherwise makes one
    write attempt that fails and is swallowed, the buffer kept);
    [BufferUpdate], however, still appends its argument to the update
    buffer, so a non-empty argument changes the buffer. *)
Theorem closed_connection_calls
  (ops : list op) (s : NetConn) (uuid : string)
  (p u : list byte) (tick : Z) :
  let c := run ops (NewTCPConnection s uuid) in
  Closed c = true ->
  WriteMessage p c = (Some errClosing, emit (EvWrite p) c) /\
  (Flush tick c = c \/ Flush tick c = emit (EvWrite (flush_bytes tick c)) c) /\
  updates (BufferUpdate u c) = updates c ++ u /\
  (u <> [] -> updates (BufferUpdate u c) <> updates c).
Proof.
  intros c Hc.
  assert (Hr : released (conn c) = true).
  { apply run_closed_released; [discriminate|exact Hc]. }
  assert (Hw : forall q, WriteMessage q c = (Some errClosing, emit (EvWrite q) c)).
  { intros q. rewrite WriteMessage_eq, conn_Write_on_released by exact Hr.
    reflexivity. }
  split; [apply Hw|]. split; [|split].
  - destruct (updates c) as [|x us] eqn:Hu.
    + left. apply Flush_empty. exact Hu.
    + right. assert (Hne : updates c <> []) by (rewrite Hu; discriminate).
      rewrite (Flush_write_failed_closed tick c errClosing Hne); [|rewrite Hw; reflexivity|exact Hc].
      rewrite Hw. reflexivity.
  - reflexivity.
  - intros Hu E. cbn in E.
    apply (f_equal (@List.length byte)) in E. rewrite length_app in E.
    destruct u; [congruence|cbn in E; lia].
Qed.

Lemma closed_connection_calls_witness :
  let c := run [OpOnClose 3%nat; OpClose]
               (NewTCPConnection (mkNetConn false [] None []) "c1"%string) in
  Closed c = true /\
  WriteMessage [x01] c = (Some errClosing, emit (EvWrite [x01]) c) /\
  updates (BufferUpdate [x01] c) = updates c ++ [x01].
Proof.
  split; [reflexivity|].
  destruct (closed_connection_calls [OpOnClose 3%nat; OpClose]
              (mkNetConn false [] None []) "c1"%string [x01] [x01] 7 eq_refl)
    as (H1 & _ & H2 & _).
  split; assumption.
Defined.

(** ** [ReadMessage] *)

Lemma ReadMessage_prefix_failed (c : TCPConnection) :
  forall d e c1,
    Read 2 c = (d, Some e, c1) ->
    ReadMessage c = if Closed c then ([], None, c1) else ([], Some e, c1).
Proof.
  intros d e c1 H. unfold ReadMessage. rewrite H.
  apply Read_spec in H. destruct H as (_ & Hc & _). rewrite Hc.
  reflexivity.
Qed.

Lemma ReadMessage_prefix_read (c : TCPConnection) :
  forall d c1 d' err c2,
    Read 2 c = (d, None, c1) ->
    Read (decoded_length d) c1 = (d', err, c2) ->
    ReadMessage c =
    match err with
    | Some e => ([], Some e, c2)
    | None => (overwrite (repeat x00 (decoded_length d)) d', None, c2)
    end.
Proof.
  intros d c1 d' err c2 H1 H2. unfold ReadMessage. rewrite H1.
  rewrite repeat_length. fold (decoded_length d). rewrite H2.
  destruct err; reflexivity.
Qed.

(** C7. When the read of the length prefix fails: on a connection marked
    closed [ReadMessage] returns an empty result and no error; on an open
    one it returns the read's error. When the prefix was read and the read
    of the body fails, [ReadMessage] returns that error, closed or not. *)
Theorem ReadMessage_errors (c : TCPConnection) :
  (forall d e c1,
     Read 2 c = (d, Some e, c1) -> Closed c = true ->
     ReadMessage c = ([], None, c1)) /\
  (forall d e c1,
     Read 2 c = (d, Some e, c1) -> Closed c = false ->
     ReadMessage c = ([], Some e, c1)) /\
  (forall d c1 d' e c2,
     Read 2 c = (d, None, c1) ->
     Read (decoded_length d) c1 = (d', Some e, c2) ->
     ReadMessage c = ([], Some e, c2)).
Proof.
  split; [|split].
  - intros d e c1 H Hc. rewrite (ReadMessage_prefix_failed c d e c1 H), Hc.
    reflexivity.
  - intros d e c1 H Hc. rewrite (ReadMessage_prefix_failed c d e c1 H), Hc.
    reflexivity.
  - intros d c1 d' e c2 H1 H2.
    rewrite (ReadMessage_prefix_read c d c1 d' (Some e) c2 H1 H2).
    reflexivity.
Qed.

Lemma ReadMessage_errors_witness :
  let closed := snd (Close (NewTCPConnection (mkNetConn false [] None [])
                                             "c1"%string)) in
  let hung_up := NewTCPConnection (mkNetConn false [] None []) "c2"%string in
  let cut := NewTCPConnection
               (mkNetConn false [] None [Seg [x03; x00]; Fault "reset"%string])
               "c3"%string in
  (fst (ReadMessage closed) = ([], None)) /\
  (fst (ReadMessage hung_up) = ([], Some EOF)) /\
  (fst (ReadMessage cut) = ([], Some "reset"%string)).
Proof.
  cbv zeta. split; [|split].
  - erewrite (proj1 (ReadMessage_errors _)); reflexivity.
  - erewrite (proj1 (proj2 (ReadMessage_errors _))); reflexivity.
  - erewrite (proj2 (proj2 (ReadMessage_errors _))); reflexivity.
Defined.

Lemma overwrite_short (n : nat) (d : list byte) :
  (List.length d <= n)%nat ->
  overwrite (repeat x00 n) d = d ++ repeat x00 (n - List.length d).
Proof.
  intros Hl. unfold overwrite. rewrite repeat_length.
  rewrite firstn_all2 by exact Hl. f_equal.
  replace n with (List.length d + (n - List.length d))%nat at 1 by lia.
  rewrite repeat_app, skipn_app, repeat_length, Nat.sub_diag.
  rewrite skipn_all2 by (rewrite repeat_length; apply Nat.le_refl).
  reflexivity.
Qed.

(** C10. [ReadMessage] calls [Read] once for the two-byte prefix and, when
    that read did not fail, once more for the body, with a slice of the
    decoded length; it never reads again. So when the body read returns
    without error but delivers fewer bytes than the decoded length,
    [ReadMessage] returns without error a body of the decoded length: the
    delivered bytes, then zero bytes up to that length. *)
Theorem ReadMessage_reads_once_each (c : TCPConnection) :
  forall d err c1,
    Read 2 c = (d, err, c1) ->
    match err with
    | Some _ => new_events c (snd (ReadMessage c)) = [EvRead 2]
    | None =>
        new_events c (snd (ReadMessage c)) =
          [EvRead 2; EvRead (decoded_length d)] /\
        forall d' c2,
          Read (decoded_length d) c1 = (d', None, c2) ->
          (List.length d' < decoded_length d)%nat ->
          exists body,
            ReadMessage c = (body, None, c2) /\
            List.length body = decoded_length d /\
            body = d' ++ repeat x00 (decoded_length d - List.length d')
    end.
Proof.
  intros d err c1 H. pose proof (Read_spec 2 c d err c1 H) as S1.
  destruct S1 as (_ & _ & _ & _ & _ & _ & Ht1).
  destruct err as [e|].
  - rewrite (ReadMessage_prefix_failed c d e c1 H).
    apply new_events_app. destruct (Closed c); exact Ht1.
  - split.
    + destruct (Read (decoded_length d) c1) as [[d' e'] c2] eqn:E2.
      rewrite (ReadMessage_prefix_read c d c1 d' e' c2 H E2).
      apply Read_spec in E2. destruct E2 as (_ & _ & _ & _ & _ & _ & Ht2).
      apply new_events_app.
      replace (trace (snd match e' with
                          | Some e => ([], Some e, c2)
                          | None => (overwrite (repeat x00 (decoded_length d)) d',
                                     None, c2)
                          end)) with (trace c2) by (destruct e'; reflexivity).
      rewrite Ht2, Ht1, <- app_assoc. reflexivity.
    + intros d' c2 E2 Hlt.
      rewrite (ReadMessage_prefix_read c d c1 d' None c2 H E2).
      eexists. split; [reflexivity|].
      rewrite overwrite_short by lia. split; [|reflexivity].
      rewrite length_app, repeat_length. lia.
Qed.

Lemma ReadMessage_reads_once_each_witness :
  let c := NewTCPConnection
             (mkNetConn false [] None [Seg [x03; x00; x01]; Seg [x02; x03]])
             "c1"%string in
  new_events c (snd (ReadMessage c)) = [EvRead 2; EvRead 3] /\
  fst (ReadMessage c) = ([x01; x00; x00], None).
Proof.
  cbv zeta.
  pose proof (ReadMessage_reads_once_each
    (NewTCPConnection
       (mkNetConn false [] None [Seg [x03; x00; x01]; Seg [x02; x03]])
       "c1"%string) [x03; x00] None _ eq_refl) as H.
  cbv beta iota in H. destruct H as [H1 H2]. split; [exact H1|].
  destruct (H2 [x01] _ eq_refl) as (body & E & _ & Hb).
  - vm_compute. lia.
  - rewrite E, Hb. reflexivity.
Defined.

(** ** Reading back a frame *)

Lemma conn_Read_whole (cap : nat) (s : NetConn) (bs : list byte)
  (rest : list segment) :
  released s = false ->
  incoming s = Seg bs :: rest ->
  (List.length bs <= cap)%nat ->
  conn_Read cap s = (bs, None, set_incoming rest s).
Proof.
  intros Hr Hi Hl. unfold conn_Read. rewrite Hr, Hi.
  rewrite skipn_all2, firstn_all2 by exact Hl. reflexivity.
Qed.

Lemma reader_Read_small (n : nat) (s : NetConn) :
  (0 < n < defaultBufSize)%nat ->
  reader_Read n [] s =
  let '(d, err, s') := conn_Read defaultBufSize s in
  match d with
  | [] => ([], err, [], s')
  | _ => (firstn n d, None, skipn n d, s')
  end.
Proof.
  intros Hn. unfold reader_Read. destruct n as [|n]; [lia|].
  replace (Nat.leb defaultBufSize (S n)) with false; [reflexivity|].
  symmetry. apply Nat.leb_gt. lia.
Qed.

Lemma reader_Read_buffered (n : nat) (buf : list byte) (s : NetConn) :
  (List.length buf <= n)%nat ->
  buf <> [] ->
  reader_Read n buf s = (buf, None, [], s).
Proof.
  intros Hl Hne. unfold reader_Read.
  destruct n as [|n]; [destruct buf; [congruence|cbn in Hl; lia]|].
  destruct buf as [|x buf]; [congruence|].
  rewrite firstn_all2, skipn_all2 by exact Hl. reflexivity.
Qed.

(** Where the round trip does hold: on a fresh connection, when the socket
    delivers the whole frame to the first read and the body has at most
    [defaultBufSize - 2] bytes, [ReadMessage] returns the body. *)
Lemma ReadMessage_frame_one_segment
  (b : list byte) (rest : list segment) (wf : list (option error))
  (rr : option error) (uuid : string) :
  (List.length b <= defaultBufSize - 2)%nat ->
  fst (ReadMessage
         (NewTCPConnection (mkNetConn false wf rr (Seg (frame b) :: rest))
                           uuid)) = (b, None).
Proof.
  intros Hl.
  assert (Hb : (List.length b <= 4094)%nat) by exact Hl.
  set (s := mkNetConn false wf rr (Seg (frame b) :: rest)).
  set (c := NewTCPConnection s uuid).
  set (pre := PutUint16 (repeat x00 2) (Z.of_nat (List.length b))).
  assert (Hpre : List.length pre = 2%nat)
    by (unfold pre; rewrite PutUint16_le_bytes; apply le_bytes_length).
  assert (Hdec : decoded_length pre = List.length b).
  { unfold decoded_length. rewrite overwrite_short by (rewrite Hpre; lia).
    rewrite Hpre. cbn [Nat.sub repeat]. rewrite app_nil_r. unfold pre.
    rewrite Uint16_PutUint16 by lia. apply Nat2Z.id. }
  assert (H1 : Read 2 c =
    (pre, None,
     mkTCPConnection false (set_incoming rest s) b uuid [] [] [EvRead 2])).
  { unfold Read, c. cbn [NewTCPConnection reader conn].
    rewrite reader_Read_small by (unfold defaultBufSize; lia).
    rewrite (conn_Read_whole defaultBufSize s (frame b) rest eq_refl eq_refl)
      by (rewrite frame_length; unfold defaultBufSize; lia).
    unfold frame. fold pre.
    destruct pre as [|p0 [|p1 [|p2 pre']]]; try discriminate Hpre.
    reflexivity. }
  destruct (Read (decoded_length pre)
              (mkTCPConnection false (set_incoming rest s) b uuid [] []
                               [EvRead 2])) as [[d' e'] c2] eqn:H2.
  rewrite (ReadMessage_prefix_read c pre _ d' e' c2 H1 H2). clear H1.
  rewrite Hdec in *. unfold Read in H2. cbn [reader conn] in H2.
  destruct b as [|x b].
  - cbn in H2. inversion H2; subst. reflexivity.
  - rewrite reader_Read_buffered in H2
      by (try discriminate; apply Nat.le_refl).
    inversion H2; subst. cbn [fst].
    rewrite overwrite_short by apply Nat.le_refl.
    rewrite Nat.sub_diag. cbn [repeat]. rewrite app_nil_r. reflexivity.
Qed.

(** C2, where the code departs from the claim. (1) A 4095-byte body whose
    frame the socket delivers whole: the reader's buffer holds 4096 bytes,
    so after the prefix 4094 body bytes are buffered, the single body read
    delivers those, and [ReadMessage] returns, without error, a body whose
    last byte is zero instead of the byte sent. (2) A 3-byte body whose
    frame arrives in two segments: the body read delivers the one byte of
    the first segment, and [ReadMessage] returns [01 00 00] for the body
    [01 02 03]. *)
Theorem ReadMessage_roundtrip_fails :
  (let b := repeat x01 4095 in
   let c := NewTCPConnection (mkNetConn false [] None [Seg (frame b)])
                             "c1"%string in
   fst (ReadMessage c) = (repeat x01 4094 ++ [x00], None) /\
   fst (ReadMessage c) <> (b, None)) /\
  (let b := [x01; x02; x03] in
   let c := NewTCPConnection
              (mkNetConn false [] None [Seg [x03; x00; x01]; Seg [x02; x03]])
              "c2"%string in
   frame b = [x03; x00; x01] ++ [x02; x03] /\
   fst (ReadMessage c) = ([x01; x00; x00], None) /\
   fst (ReadMessage c) <> (b, None)).
Proof.
  split.
  - cbv zeta.
    assert (E : fst (ReadMessage
                  (NewTCPConnection
                     (mkNetConn false [] None [Seg (frame (repeat x01 4095))])
                     "c1"%string)) = (repeat x01 4094 ++ [x00], None))
      by (vm_compute; reflexivity).
    split; [exact E|]. rewrite E. intros H.
    apply (f_equal (fun r => nth 4094 (fst r) x01)) in H.
    vm_compute in H. discriminate H.
  - cbv zeta. split; [reflexivity|]. split; [reflexivity|].
    vm_compute. discriminate.
Qed.

(** ** The accept loop *)

(** An accept error that is not the closed-listener error, on a server that
    is not stopping: the error is logged, and the iteration goes on with the
    nil socket and faults on it; nothing is sent on the channel. *)
Lemma accept_loop_transient_error
  (e : error) (rest : list accept_event) (t : Server) :
  stopping t = false ->
  Contains e "use of closed network connection"%string = false ->
  accept_loop (mkAcceptEvent false (AcceptFailed e) :: rest) t =
  (Panicked nil_dereference, slog Error e t).
Proof.
  intros Hs Hc. cbn [accept_loop stop_during result]. rewrite Hs, Hc.
  cbn [slog stopping]. rewrite Hs. reflexivity.
Qed.

(** C5, where the code departs from the claim. [Accept] fails once with a
    transient error and would then deliver a socket: [Start] logs the
    error, falls through to [conn.RemoteAddr()] on the nil socket and
    panics; the second socket is never accepted and the channel stays
    empty. *)
Theorem Start_transient_accept_error_panics :
  let e := "accept tcp [::]:4000: accept4: too many open files"%string in
  let script :=
    [mkAcceptEvent false (AcceptFailed e);
     mkAcceptEvent false
       (Accepted "10.0.0.7:51000"%string (mkNetConn false [] None [])
                 "c1"%string)] in
  let r := Start None script (NewTCPServer ":4000"%string) in
  Contains e "use of closed network connection"%string = false /\
  fst r = Panicked nil_dereference /\
  Connections (snd r) = [] /\
  server_log (snd r) =
    [(Info, "TCP Server listening on :4000"%string); (Error, e)].
Proof.
  cbv zeta. repeat split.
Qed.

(** * Further properties of the listener *)

Lemma accept_loop_plain (ev : accept_event) (rest : list accept_event)
  (t : Server) :
  plain_accept ev = true ->
  stopping t = false ->
  channel_closed t = false ->
  accept_loop (ev :: rest) t = accept_loop rest (deliver_all [ev] t).
Proof.
  intros Hp Hs Hc. destruct ev as [sd [remote s uuid|e]]; cbn in Hp;
    destruct sd; try discriminate Hp.
  destruct t as [cs cc a st lg sk]. cbn in Hs, Hc. subst cc st.
  reflexivity.
Qed.

Lemma deliver_all_cons (ev : accept_event) (oks : list accept_event)
  (t : Server) :
  deliver_all oks (deliver_all [ev] t) = deliver_all (ev :: oks) t.
Proof.
  unfold deliver_all. cbn. rewrite ?app_nil_r, <- !app_assoc. reflexivity.
Qed.

Lemma accept_loop_plain_run
  (oks rest : list accept_event) (t : Server) :
  forallb plain_accept oks = true ->
  stopping t = false ->
  channel_closed t = false ->
  accept_loop (oks ++ rest) t = accept_loop rest (deliver_all oks t).
Proof.
  revert t. induction oks as [|ev oks IH]; intros t Hp Hs Hc.
  - cbn [app]. f_equal. unfold deliver_all. cbn. rewrite ?app_nil_r.
    destruct t; reflexivity.
  - cbn in Hp. apply andb_prop in Hp. destruct Hp as [Hev Hoks].
    cbn [app]. rewrite accept_loop_plain by assumption.
    rewrite IH by (try assumption; reflexivity || exact Hs || exact Hc).
    rewrite deliver_all_cons. reflexivity.
Qed.

(** The accept loop, on a server that is not stopping and whose channel is
    open, handles a run of successful accepts by sending one new connection
    per socket on the channel, in accept order, logging each, and then goes
    on with the rest of the script from that state. *)
Theorem accept_loop_delivers_in_order
  (oks rest : list accept_event) (t : Server) :
  forallb plain_accept oks = true ->
  stopping t = false ->
  channel_closed t = false ->
  accept_loop (oks ++ rest) t = accept_loop rest (deliver_all oks t).
Proof.
  apply accept_loop_plain_run.
Qed.

Lemma accept_loop_delivers_in_order_witness :
  let a := mkAcceptEvent false
             (Accepted "10.0.0.7:51000"%string (mkNetConn false [] None [])
                       "c1"%string) in
  let b := mkAcceptEvent false
             (Accepted "10.0.0.8:51001"%string (mkNetConn false [] None [])
                       "c2"%string) in
  map id (Connections (snd (accept_loop [a; b] (NewTCPServer ":4000"%string))))
  = ["c1"%string; "c2"%string].
Proof.
  cbv zeta.
  pose proof (accept_loop_delivers_in_order
    [mkAcceptEvent false
       (Accepted "10.0.0.7:51000"%string (mkNetConn false [] None [])
                 "c1"%string);
     mkAcceptEvent false
       (Accepted "10.0.0.8:51001"%string (mkNetConn false [] None [])
                 "c2"%string)] [] (NewTCPServer ":4000"%string)
    eq_refl eq_refl eq_refl) as H.
  cbn [app] in H. rewrite H. reflexivity.
Defined.




Lemma accept_loop_no_error (script : list accept_event) (t : Server)
  (e : error) :
  fst (accept_loop script t) <> Returned (Some e).
Proof.
  revert t. induction script as [|ev rest IH]; intros t.
  - cbn. destruct (stopping t); discriminate.
  - cbn [accept_loop]. destruct (stopping t); [discriminate|].
    destruct ev as [sd [remote s uuid|e']]; cbn [stop_during result].
    + destruct (stopping (if sd then Stop t else t)); [discriminate|].
      destruct (channel_closed
                  (slog Debug ("Client connected: " ++ remote)%string
                        (if sd then Stop t else t))); [discriminate|].
      apply IH.
    + destruct (Contains e' "use of closed network connection"%string);
        [discriminate|].
      destruct (stopping (slog Error e' (if sd then Stop t else t)));
        discriminate.
Qed.

(** [Start] returns an error exactly when binding the address failed, and
    then that error: nothing that happens in the accept loop is returned as
    an error. *)
Theorem Start_error_iff_bind_failed
  (bind : option error) (script : list accept_event) (t : Server)
  (e : error) :
  fst (Start bind script t) = Returned (Some e) <-> bind = Some e.
Proof.
  unfold Start. destruct bind as [e0|].
  - cbn. split; intros H; inversion H; reflexivity.
  - split; [|discriminate]. intros H.
    exfalso. exact (accept_loop_no_error _ _ _ H).
Qed.

(** When [Accept] fails with an error whose message contains "use of closed
    network connection", after any run of successful accepts, [Start]
    returns nil: every accepted socket was delivered, in order, and the
    error is not logged. *)
Theorem Start_clean_shutdown
  (oks rest : list accept_event) (e : error) (t : Server) :
  forallb plain_accept oks = true ->
  Contains e "use of closed network connection"%string = true ->
  stopping t = false ->
  channel_closed t = false ->
  Start None (oks ++ mkAcceptEvent false (AcceptFailed e) :: rest) t =
  (Returned None,
   deliver_all oks
     (slog Info ("TCP Server listening on " ++ addr t)%string t)).
Proof.
  intros Hp He Hs Hc. unfold Start.
  rewrite accept_loop_plain_run by assumption.
  cbn [accept_loop stop_during result]. 
  cbn [deliver_all stopping slog]. rewrite Hs, He. reflexivity.
Qed.

Lemma Start_clean_shutdown_witness :
  let ok := mkAcceptEvent false
              (Accepted "10.0.0.7:51000"%string (mkNetConn false [] None [])
                        "c1"%string) in
  let e := "accept tcp [::]:4000: use of closed network connection"%string in
  let r := Start None [ok; mkAcceptEvent false (AcceptFailed e)]
                 (NewTCPServer ":4000"%string) in
  fst r = Returned None /\
  map id (Connections (snd r)) = ["c1"%string] /\
  server_log (snd r) =
    [(Info, "TCP Server listening on :4000"%string);
     (Debug, "Client connected: 10.0.0.7:51000"%string)].
Proof.
  cbv zeta.
  pose proof (Start_clean_shutdown
    [mkAcceptEvent false
       (Accepted "10.0.0.7:51000"%string (mkNetConn false [] None [])
                 "c1"%string)] []
    "accept tcp [::]:4000: use of closed network connection"%string
    (NewTCPServer ":4000"%string) eq_refl eq_refl eq_refl eq_refl) as H.
  cbn [app] in H. rewrite H. repeat split.
Defined.

(** When [Stop] runs while the loop is blocked in [Accept] and [Accept] then
    hands over a socket, the loop closes that socket instead of delivering
    it and returns nil; the connections delivered are those accepted
    before. *)
Theorem accept_loop_stop_closes_pending_socket
  (oks rest : list accept_event) (remote : string) (s : NetConn)
  (uuid : string) (t : Server) :
  forallb plain_accept oks = true ->
  stopping t = false ->
  channel_closed t = false ->
  let r := accept_loop
             (oks ++ mkAcceptEvent true (Accepted remote s uuid) :: rest) t in
  fst r = Returned None /\
  Connections (snd r) = Connections t ++ flat_map accepted_conn oks /\
  closed_sockets (snd r) = closed_sockets t ++ [remote] /\
  stopping (snd r) = true /\
  channel_closed (snd r) = true.
Proof.
  intros Hp Hs Hc r. unfold r.
  rewrite accept_loop_plain_run by assumption.
  cbn [accept_loop stop_during result].
  cbn [deliver_all stopping slog Stop]. rewrite Hs.
  cbn. repeat split.
Qed.

Lemma accept_loop_stop_closes_pending_socket_witness :
  let r := accept_loop
             [mkAcceptEvent true
                (Accepted "10.0.0.9:51002"%string (mkNetConn false [] None [])
                          "c3"%string)]
             (NewTCPServer ":4000"%string) in
  fst r = Returned None /\
  Connections (snd r) = [] /\
  closed_sockets (snd r) = ["10.0.0.9:51002"%string].
Proof.
  cbv zeta.
  destruct (accept_loop_stop_closes_pending_socket [] []
    "10.0.0.9:51002"%string (mkNetConn false [] None []) "c3"%string
    (NewTCPServer ":4000"%string) eq_refl eq_refl eq_refl)
    as (H1 & H2 & H3 & _).
  repeat split; assumption.
Defined.

(** * Further properties of the connection *)

Lemma hooks_run_app (a b : list event) :
  hooks_run (a ++ b) = hooks_run a ++ hooks_run b.
Proof.
  induction a as [|e a IH]; [reflexivity|].
  destruct e; cbn; rewrite IH; reflexivity.
Qed.

Lemma releases_app (a b : list event) :
  releases (a ++ b) = (releases a + releases b)%nat.
Proof.
  induction a as [|e a IH]; [reflexivity|].
  destruct e; cbn; rewrite IH; reflexivity.
Qed.

Lemma hooks_run_closing_events (fs : list hook) :
  hooks_run (closing_events fs) = fs.
Proof.
  unfold closing_events. cbn. rewrite hooks_run_app. cbn.
  rewrite app_nil_r. induction fs as [|f fs IH]; [reflexivity|].
  cbn. rewrite IH. reflexivity.
Qed.

Lemma releases_closing_events (fs : list hook) :
  releases (closing_events fs) = 1%nat.
Proof.
  unfold closing_events. cbn. rewrite releases_app. cbn.
  induction fs as [|f fs IH]; [reflexivity|exact IH].
Qed.

(** What one call of the driver can do to the flag, the hook list and the
    trace: either the flag stays and only reads and writes are traced, or
    the connection goes from open to closed, running the registered hooks
    and releasing the socket once. *)
Lemma step_shape (c : TCPConnection) (o : op) :
  exists l fs',
    trace (step c o) = trace c ++ l /\
    closeFunctions (step c o) = closeFunctions c ++ fs' /\
    id (step c o) = id c /\
    ((Closed (step c o) = Closed c /\ hooks_run l = [] /\ releases l = O) \/
     (Closed c = false /\ Closed (step c o) = true /\ fs' = [] /\
      hooks_run l = closeFunctions c /\ releases l = 1%nat)).
Proof.
  destruct o as [|f|p| |s|tick]; cbn [step].
  - destruct (Closed c) eqn:Hc.
    + rewrite Close_closed by exact Hc. cbn [snd]. exists [], [].
      rewrite !app_nil_r. repeat split. left. repeat split. exact Hc.
    + rewrite Close_open by exact Hc. cbn [snd].
      exists (closing_events (closeFunctions c)), [].
      cbn [trace closeFunctions id Closed]. rewrite app_nil_r.
      repeat split. right. repeat split.
      * apply hooks_run_closing_events.
      * apply releases_closing_events.
  - exists [], [f]. cbn. rewrite app_nil_r. repeat split.
    left. repeat split.
  - rewrite WriteMessage_eq. cbn [snd]. exists [EvWrite p], [].
    cbn [trace closeFunctions id Closed]. rewrite app_nil_r.
    repeat split. left. repeat split.
  - unfold ReadMessage.
    destruct (Read 2 c) as [[d e] c1] eqn:E1.
    pose proof (Read_spec 2 c d e c1 E1) as (_ & Hc & Hf & _ & Hi & _ & Ht).
    destruct e as [e|].
    + exists [EvRead 2], [].
      replace (snd (if Closed c1 then ([], None, c1) else ([], Some e, c1)))
        with c1 by (destruct (Closed c1); reflexivity).
      rewrite app_nil_r. repeat split; try assumption.
      left. repeat split. exact Hc.
    + match goal with
      | |- context [Read ?n c1] => destruct (Read n c1) as [[d' e'] c2] eqn:E2
      end.
      pose proof (Read_spec _ c1 d' e' c2 E2)
        as (_ & Hc2 & Hf2 & _ & Hi2 & _ & Ht2).
      eexists [EvRead 2; EvRead _], [].
      match goal with
      | |- context [snd ?X] => replace (snd X) with c2 by (destruct e'; reflexivity)
      end.
      rewrite app_nil_r. repeat split; try congruence.
      * rewrite Ht2, Ht, <- app_assoc. reflexivity.
      * left. repeat split. congruence.
  - exists [], []. cbn. rewrite !app_nil_r. repeat split.
    left. repeat split.
  - destruct (updates c) as [|x u] eqn:Hu.
    + rewrite (Flush_empty tick c Hu). exists [], [].
      rewrite !app_nil_r. repeat split. left. repeat split.
    + assert (Hne : updates c <> []) by (rewrite Hu; discriminate).
      destruct (fst (WriteMessage (flush_bytes tick c) c)) as [e|] eqn:Hw.
      * destruct (Closed c) eqn:Hc.
        -- rewrite (Flush_write_failed_closed tick c e Hne Hw Hc).
           rewrite WriteMessage_eq. cbn [snd].
           eexists [EvWrite _], [].
           cbn [trace closeFunctions id Closed]. rewrite app_nil_r.
           repeat split. left. repeat split. exact Hc.
        -- rewrite (Flush_write_failed_open tick c e Hne Hw Hc).
           rewrite WriteMessage_eq. cbn [snd]. rewrite Close_open by exact Hc.
           cbn [snd set_updates emit Closed conn reader id closeFunctions
                updates trace].
           eexists ([EvWrite _; EvLog Error _ (Some e)]
                      ++ closing_events (closeFunctions c)), [].
           rewrite app_nil_r. repeat split.
           ++ rewrite <- !app_assoc. reflexivity.
           ++ right. repeat split.
              ** cbn. apply hooks_run_closing_events.
              ** cbn. apply releases_closing_events.
      * rewrite (Flush_write_ok tick c Hne Hw), WriteMessage_eq.
        cbn [snd set_updates]. eexists [EvWrite _], [].
        cbn [trace closeFunctions id Closed]. rewrite app_nil_r.
        repeat split. left. repeat split.
Qed.

(** The identifier given at construction is what [ID] returns, and no
    sequence of calls changes it. *)
Theorem ID_immutable (ops : list op) (s : NetConn) (uuid : string) :
  ID (run ops (NewTCPConnection s uuid)) = uuid.
Proof.
  unfold ID.
  change uuid with (id (NewTCPConnection s uuid)) at 2.
  generalize (NewTCPConnection s uuid) as c.
  induction ops as [|o ops IH]; intros c; [reflexivity|].
  unfold run in *. cbn [fold_left]. rewrite IH.
  destruct (step_shape c o) as (l & fs' & _ & _ & Hi & _). exact Hi.
Qed.

Lemma step_lifecycle (c : TCPConnection) (o : op) :
  lifecycle c -> lifecycle (step c o).
Proof.
  intros (Hr & Hh & later & Hf).
  destruct (step_shape c o) as (l & fs' & Ht & Hfs & _ & Hcase).
  unfold lifecycle. rewrite Ht, Hfs, hooks_run_app, releases_app.
  destruct Hcase as [(Hc & Hl & Hrl) | (Hc & Hc' & Hfs' & Hl & Hrl)].
  - rewrite Hc, Hl, Hrl, Hr, app_nil_r, Nat.add_0_r.
    split; [reflexivity|]. split; [exact Hh|].
    exists (later ++ fs'). rewrite Hf, <- app_assoc. reflexivity.
  - rewrite Hc', Hl, Hrl, Hr, Hc, (Hh Hc), Hfs'. cbn [app Nat.add].
    split; [reflexivity|]. split; [discriminate|].
    exists []. reflexivity.
Qed.

(** The life of a connection, whatever the driver calls and in whatever
    order: while it is open no hook has run and the socket has not been
    released; once it is closed the socket has been released exactly once,
    and the hooks that ran are the front part of the registered list, in
    registration order and once each: a hook registered after the close is
    never run. *)
Theorem connection_lifecycle (ops : list op) (s : NetConn) (uuid : string) :
  let c := run ops (NewTCPConnection s uuid) in
  releases (trace c) = (if Closed c then 1 else 0)%nat /\
  (Closed c = false -> hooks_run (trace c) = []) /\
  exists later, closeFunctions c = hooks_run (trace c) ++ later.
Proof.
  cbv zeta. change (lifecycle (run ops (NewTCPConnection s uuid))).
  assert (H0 : lifecycle (NewTCPConnection s uuid)).
  { unfold lifecycle. cbn. repeat split. exists []. reflexivity. }
  revert H0. generalize (NewTCPConnection s uuid) as c.
  induction ops as [|o ops IH]; intros c H; [exact H|].
  unfold run in *. cbn [fold_left]. apply IH, step_lifecycle, H.
Qed.

Lemma connection_lifecycle_witness :
  let c := run [OpOnClose 3%nat; OpBufferUpdate [x01]; OpFlush 7;
                OpOnClose 5%nat; OpClose; OpFlush 8]
               (NewTCPConnection (mkNetConn false [Some EOF] None [])
                                 "c1"%string) in
  Closed c = true /\
  releases (trace c) = 1%nat /\
  hooks_run (trace c) = [3%nat] /\
  closeFunctions c = [3%nat; 5%nat].
Proof.
  cbv zeta. split; [reflexivity|].
  destruct (connection_lifecycle
              [OpOnClose 3%nat; OpBufferUpdate [x01]; OpFlush 7;
               OpOnClose 5%nat; OpClose; OpFlush 8]
              (mkNetConn false [Some EOF] None []) "c1"%string)
    as (H1 & _ & _).
  split; [exact H1|]. split; reflexivity.
Defined.

(** On a connection that is not closed, a [Flush] always leaves the buffer
    empty (it was empty, or the write succeeded, or the write failed and the
    connection was closed), so a second [Flush] right after it, with any
    tick, does nothing: no second write, same connection. *)
Theorem Flush_twice_open (tick1 tick2 : Z) (c : TCPConnection) :
  Closed c = false ->
  updates (Flush tick1 c) = [] /\
  Flush tick2 (Flush tick1 c) = Flush tick1 c.
Proof.
  intros Hc.
  assert (Hu : updates (Flush tick1 c) = []).
  { destruct (updates c) as [|x u] eqn:Hu.
    - rewrite (Flush_empty tick1 c Hu). exact Hu.
    - assert (Hne : updates c <> []) by (rewrite Hu; discriminate).
      destruct (fst (WriteMessage (flush_bytes tick1 c) c)) as [e|] eqn:Hw.
      + rewrite (Flush_write_failed_open tick1 c e Hne Hw Hc). reflexivity.
      + rewrite (Flush_write_ok tick1 c Hne Hw). reflexivity. }
  split; [exact Hu|]. apply Flush_empty, Hu.
Qed.

Lemma Flush_twice_open_witness :
  let c := BufferUpdate [x01; x02]
             (NewTCPConnection (mkNetConn false [] None []) "c1"%string) in
  writes (trace (Flush 8 (Flush 7 c))) =
    [[x07; x00; x00; x00; x01; x02; x00]].
Proof.
  cbv zeta.
  rewrite (proj2 (Flush_twice_open 7 8
    (BufferUpdate [x01; x02]
       (NewTCPConnection (mkNetConn false [] None []) "c1"%string))
    eq_refl)).
  reflexivity.
Defined.

(** [ReadMessage] reads; it never closes the connection, runs a hook,
    releases the socket or touches the update buffer, also when a read
    fails and also on a connection already closed. *)
Theorem ReadMessage_keeps_connection (c : TCPConnection) :
  let c' := snd (ReadMessage c) in
  Closed c' = Closed c /\
  closeFunctions c' = closeFunctions c /\
  updates c' = updates c /\
  released (conn c') = released (conn c) /\
  hooks_run (trace c') = hooks_run (trace c) /\
  releases (trace c') = releases (trace c).
Proof.
  cbv zeta. destruct (ReadMessage c) as [[r e] c'] eqn:E.
  apply ReadMessage_spec in E.
  destruct E as (H1 & H2 & H3 & H4 & l & Hl & Ht). cbn [snd].
  rewrite Ht, hooks_run_io, releases_io by exact Hl.
  repeat split; assumption.
Qed.

Lemma Uint16_range (b : list byte) : 0 <= Uint16 b < 65536.
Proof.
  change (Uint16 b) with (Uint16 [nth 0 b x00; nth 1 b x00]).
  rewrite Uint16_le_value. cbn [le_value].
  pose proof (Z_of_byte_range (nth 0 b x00)).
  pose proof (Z_of_byte_range (nth 1 b x00)). lia.
Qed.

Lemma decoded_length_bound (d : list byte) : Z.of_nat (decoded_length d) <= 65535.
Proof.
  unfold decoded_length.
  pose proof (Uint16_range (overwrite (repeat x00 2) d)). lia.
Qed.

(** Whatever arrives on the socket, the body [ReadMessage] returns has at
    most 65535 bytes, and when it returns an error the body is empty. *)
Theorem ReadMessage_body_bounded (c : TCPConnection) :
  Z.of_nat (List.length (fst (fst (ReadMessage c)))) <= 65535 /\
  (forall e, snd (fst (ReadMessage c)) = Some e ->
             fst (fst (ReadMessage c)) = []).
Proof.
  destruct (Read 2 c) as [[d e] c1] eqn:E1. destruct e as [e|].
  - rewrite (ReadMessage_prefix_failed c d e c1 E1).
    destruct (Closed c); cbn; split; (lia || reflexivity || discriminate).
  - destruct (Read (decoded_length d) c1) as [[d' e'] c2] eqn:E2.
    rewrite (ReadMessage_prefix_read c d c1 d' e' c2 E1 E2).
    destruct e' as [e'|]; cbn [fst snd].
    + split; [cbn; lia|reflexivity].
    + split; [|discriminate].
      apply Read_spec in E2. destruct E2 as (Hl & _).
      rewrite overwrite_short by exact Hl.
      rewrite length_app, repeat_length.
      pose proof (decoded_length_bound d). lia.
Qed.

Lemma ReadMessage_frame_one_segment_witness :
  fst (ReadMessage
         (NewTCPConnection
            (mkNetConn false [] None [Seg (frame [x01; x02; x03])])
            "c1"%string)) = ([x01; x02; x03], None).
Proof.
  apply (ReadMessage_frame_one_segment [x01; x02; x03] [] [] None "c1"%string).
  apply Nat.leb_le. reflexivity.
Defined.

Lemma decoded_length_frame_prefix (n : nat) :
  Z.of_nat n <= 65535 ->
  decoded_length (PutUint16 (repeat x00 2) (Z.of_nat n)) = n.
Proof.
  intros Hn. unfold decoded_length.
  assert (Hpre : List.length (PutUint16 (repeat x00 2) (Z.of_nat n)) = 2%nat)
    by (rewrite PutUint16_le_bytes; apply le_bytes_length).
  rewrite overwrite_short by (rewrite Hpre; lia).
  rewrite Hpre. cbn [Nat.sub repeat]. rewrite app_nil_r.
  rewrite Uint16_PutUint16 by lia. apply Nat2Z.id.
Qed.

(** A frame that the reader already holds is read back without touching
    the socket, and what follows it stays in the reader. *)
Lemma ReadMessage_buffered_frame (c : TCPConnection) (b more : list byte) :
  reader c = frame b ++ more ->
  Z.of_nat (List.length b) <= 65535 ->
  ReadMessage c =
  (b, None,
   mkTCPConnection (Closed c) (conn c) more (id c) (closeFunctions c)
                   (updates c)
                   (trace c ++ [EvRead 2; EvRead (List.length b)])).
Proof.
  intros Hr Hl.
  set (pre := PutUint16 (repeat x00 2) (Z.of_nat (List.length b))).
  assert (Hpre : List.length pre = 2%nat)
    by (unfold pre; rewrite PutUint16_le_bytes; apply le_bytes_length).
  assert (Hdec : decoded_length pre = List.length b)
    by (apply decoded_length_frame_prefix; exact Hl).
  set (c1 := mkTCPConnection (Closed c) (conn c) (b ++ more) (id c)
               (closeFunctions c) (updates c) (trace c ++ [EvRead 2])).
  assert (H1 : Read 2 c = (pre, None, c1)).
  { unfold Read. rewrite Hr. unfold frame. fold pre.
    destruct pre as [|p0 [|p1 [|p2 pre']]]; try discriminate Hpre.
    reflexivity. }
  assert (H2 : Read (decoded_length pre) c1 =
    (b, None,
     mkTCPConnection (Closed c) (conn c) more (id c) (closeFunctions c)
                     (updates c)
                     (trace c ++ [EvRead 2; EvRead (List.length b)]))).
  { rewrite Hdec. unfold Read, c1. cbn [reader conn].
    destruct b as [|x b].
    - cbn. unfold set_conn, set_reader, emit. cbn.
      rewrite <- app_assoc. reflexivity.
    - cbn [List.length app reader_Read].
      change (x :: b ++ more) with ((x :: b) ++ more).
      change (S (List.length b)) with (List.length (x :: b)).
      rewrite firstn_app, skipn_app, firstn_all, skipn_all, Nat.sub_diag.
      rewrite firstn_O, skipn_O, app_nil_r. cbn [app].
      unfold set_conn, set_reader, emit. cbn.
      rewrite <- app_assoc. reflexivity. }
  rewrite (ReadMessage_prefix_read c pre c1 _ _ _ H1 H2).
  rewrite Hdec, overwrite_short by apply Nat.le_refl.
  rewrite Nat.sub_diag. cbn [repeat]. rewrite app_nil_r. reflexivity.
Qed.

(** Frames that the reader holds back to back are returned by successive
    [ReadMessage] calls one by one, in order and without error; the socket
    is not read, and the bytes after the last frame stay in the reader. *)
Theorem ReadMessages_buffered_frames
  (bs : list (list byte)) (more : list byte) (c : TCPConnection) :
  reader c = concat (map frame bs) ++ more ->
  Forall (fun b => Z.of_nat (List.length b) <= 65535) bs ->
  let r := ReadMessages (List.length bs) c in
  fst r = map (fun b => (b, None)) bs /\
  reader (snd r) = more /\
  conn (snd r) = conn c.
Proof.
  revert c. induction bs as [|b bs IH]; intros c Hr Hall.
  - cbn in *. repeat split. exact Hr.
  - inversion Hall as [|b' bs' Hb Hbs]; subst.
    cbn [map concat] in Hr. rewrite <- app_assoc in Hr.
    cbn [List.length ReadMessages].
    rewrite (ReadMessage_buffered_frame c b _ Hr Hb).
    match goal with
    | |- context [ReadMessages _ ?c1] =>
        specialize (IH c1 eq_refl Hbs);
        destruct (ReadMessages (List.length bs) c1) as [rs c2]
    end.
    cbn [fst snd map] in *. destruct IH as (H1 & H2 & H3).
    repeat split; [rewrite H1; reflexivity|exact H2|exact H3].
Qed.

Lemma ReadMessages_buffered_frames_witness :
  let c := set_reader (frame [x01; x02] ++ frame [] ++ frame [x03] ++ [x09])
             (NewTCPConnection (mkNetConn false [] None []) "c1"%string) in
  fst (ReadMessages 3 c) = [([x01; x02], None); ([], None); ([x03], None)] /\
  reader (snd (ReadMessages 3 c)) = [x09].
Proof.
  cbv zeta.
  destruct (ReadMessages_buffered_frames [[x01; x02]; []; [x03]] [x09]
    (set_reader (frame [x01; x02] ++ frame [] ++ frame [x03] ++ [x09])
       (NewTCPConnection (mkNetConn false [] None []) "c1"%string)))
    as (H1 & H2 & _).
  - reflexivity.
  - repeat constructor; cbn; lia.
  - split; [exact H1|exact H2].
Defined.

Lemma writes_map_EvWrite (ps : list (list byte)) :
  writes (map EvWrite ps) = ps.
Proof.
  induction ps as [|p ps IH]; [reflexivity|]. cbn. rewrite IH. reflexivity.
Qed.

(** One tick on a socket that is open and has no write failure coming: the
    socket stays so, the buffer ends empty, and the trace gains the tick's
    frame, if any. *)
Lemma do_round_healthy (c : TCPConnection) (r : list (list byte) * Z) :
  released (conn c) = false ->
  write_faults (conn c) = [] ->
  updates c = [] ->
  conn (do_round c r) = conn c /\
  updates (do_round c r) = [] /\
  trace (do_round c r) = trace c ++ map EvWrite (round_frame r).
Proof.
  intros Hrel Hwf Hu. destruct r as [ss tick].
  unfold do_round, round_frame. cbn [fst snd].
  rewrite BufferUpdate_all, Hu. cbn [app].
  set (c1 := set_updates (concat ss) c).
  destruct (concat ss) as [|x p] eqn:Hp.
  - rewrite (Flush_empty tick c1 eq_refl). cbn. rewrite app_nil_r.
    repeat split.
  - assert (Hne : updates c1 <> []) by discriminate.
    assert (Hw : WriteMessage (flush_bytes tick c1) c1 =
                 (None, emit (EvWrite (flush_bytes tick c1)) c1)).
    { rewrite WriteMessage_eq. unfold conn_Write. cbn [conn c1 set_updates].
      rewrite Hrel, Hwf. cbn [fst snd]. unfold emit. cbn.
      destruct (conn c); reflexivity. }
    rewrite (Flush_write_ok tick c1 Hne) by (rewrite Hw; reflexivity).
    rewrite Hw. cbn [snd]. rewrite flush_bytes_tick_update.
    cbn. repeat split.
Qed.

Lemma rounds_healthy (rounds : list (list (list byte) * Z))
  (c : TCPConnection) :
  released (conn c) = false ->
  write_faults (conn c) = [] ->
  updates c = [] ->
  updates (fold_left do_round rounds c) = [] /\
  trace (fold_left do_round rounds c) =
    trace c ++ map EvWrite (flat_map round_frame rounds).
Proof.
  revert c. induction rounds as [|r rounds IH]; intros c Hrel Hwf Hu.
  - cbn. rewrite app_nil_r. split; [exact Hu|reflexivity].
  - destruct (do_round_healthy c r Hrel Hwf Hu) as (Hc & Hu' & Ht).
    cbn [fold_left flat_map].
    destruct (IH (do_round c r)) as (H1 & H2); try congruence.
    split; [exact H1|].
    rewrite H2, Ht, map_app, <- app_assoc. reflexivity.
Qed.

(** Over any number of ticks on a socket whose writes succeed, starting
    from an empty buffer: each tick in which something was buffered puts on
    the wire one tick-update structure carrying exactly the bytes buffered
    in that tick, in order; a tick in which nothing was buffered writes
    nothing; no byte is sent twice or carried over to a later tick. *)
Theorem Flush_each_tick_sends_its_updates
  (rounds : list (list (list byte) * Z)) (c : TCPConnection) :
  released (conn c) = false ->
  write_faults (conn c) = [] ->
  updates c = [] ->
  writes (new_events c (fold_left do_round rounds c)) =
    flat_map round_frame rounds /\
  updates (fold_left do_round rounds c) = [].
Proof.
  intros Hrel Hwf Hu.
  destruct (rounds_healthy rounds c Hrel Hwf Hu) as (H1 & H2).
  split; [|exact H1].
  rewrite (new_events_app _ _ _ H2). apply writes_map_EvWrite.
Qed.

Lemma Flush_each_tick_sends_its_updates_witness :
  let c := NewTCPConnection (mkNetConn false [] None []) "c1"%string in
  writes (new_events c
            (fold_left do_round
               [([[x01]; [x02]], 7); ([], 8); ([[x03]], 9)] c)) =
  [[x07; x00; x00; x00; x01; x02; x00]; [x09; x00; x00; x00; x03; x00]].
Proof.
  cbv zeta.
  rewrite (proj1 (Flush_each_tick_sends_its_updates
    [([[x01]; [x02]], 7); ([], 8); ([[x03]], 9)]
    (NewTCPConnection (mkNetConn false [] None []) "c1"%string)
    eq_refl eq_refl eq_refl)).
  reflexivity.
Defined.

(** A [WriteMessage] whose write fails returns the socket's error as it is
    and does nothing else: the connection stays open, the buffer is
    untouched and no hook has run, so a [Close] after it still runs every
    registered hook and releases the socket. *)
Theorem WriteMessage_failure_leaves_open
  (p : list byte) (c : TCPConnection) (e : error) :
  Closed c = false ->
  fst (conn_Write p (conn c)) = Some e ->
  let c1 := snd (WriteMessage p c) in
  fst (WriteMessage p c) = Some e /\
  Closed c1 = false /\
  updates c1 = updates c /\
  new_events c c1 = [EvWrite p] /\
  new_events c1 (snd (Close c1)) = closing_events (closeFunctions c).
Proof.
  intros Hc He. cbv zeta. rewrite WriteMessage_eq. cbn [fst snd].
  repeat split; try assumption.
  - apply new_events_app. reflexivity.
  - rewrite Close_open by exact Hc. cbn [snd].
    apply new_events_app. reflexivity.
Qed.

Lemma WriteMessage_failure_leaves_open_witness :
  let c := OnClose 3%nat
             (NewTCPConnection (mkNetConn false [Some EOF] None [])
                               "c1"%string) in
  fst (WriteMessage [x01] c) = Some EOF /\
  Closed (snd (WriteMessage [x01] c)) = false.
Proof.
  cbv zeta.
  destruct (WriteMessage_failure_leaves_open [x01]
    (OnClose 3%nat
       (NewTCPConnection (mkNetConn false [Some EOF] None []) "c1"%string))
    EOF eq_refl eq_refl) as (H1 & H2 & _).
  split; assumption.
Defined.
